(** * A shallow embedding of sdns (src/lib/sdns.go)

    The domain table, its loading, the wildcard lookup, the round-robin
    address selection and the query dispatcher of package [lib].

    Modelling choices, following the Go code:
    - a [*Domain] is a pointer into a heap ([gmap positive Domain]); the
      two indexes of [Sdns] map names to pointers, so the round-robin
      counter mutated through one lookup is seen by the next one;
    - Go strings are byte strings: Rocq [string] (8-bit [ascii]);
    - a [uint64] is a [Z] kept in [0, 2^64), its increment wraps;
    - a runtime panic (index out of range, nil dereference, division by
      zero) is the [Panic] outcome of [go]. *)

From Stdlib Require Import ZArith Lia List Permutation Ascii.
From stdpp Require Import gmap strings list fin_maps.

Import ListNotations.
Open Scope Z_scope.

(** ** Go runtime outcomes *)

Inductive go (A : Type) : Type :=
| Ret (a : A)
| Panic.
Arguments Ret {A} a.
Arguments Panic {A}.

(** ** Strings *)

Definition ascii_eqb (a b : Ascii.ascii) : bool :=
  if decide (a = b) then true else false.

(** [strings.IndexByte]: index of the first [c] in [s], or -1. *)
Fixpoint IndexByte (s : string) (c : Ascii.ascii) : Z :=
  match s with
  | EmptyString => -1
  | String c' tl =>
      if ascii_eqb c' c then 0
      else let i := IndexByte tl c in if i <? 0 then -1 else i + 1
  end.

(** [s[n:]] for [0 <= n <= len(s)]. *)
Fixpoint str_drop (n : nat) (s : string) : string :=
  match n, s with
  | O, _ => s
  | S n', String _ tl => str_drop n' tl
  | S _, EmptyString => EmptyString
  end.

(** [strings.TrimRight(s, ".")]: drop every trailing ['.']. *)
Fixpoint TrimRightDot (s : string) : string :=
  match s with
  | EmptyString => EmptyString
  | String c tl =>
      match TrimRightDot tl with
      | EmptyString => if ascii_eqb c "."%char then EmptyString else String c EmptyString
      | r => String c r
      end
  end.

(** ** Data model *)

(** [type Domain struct]; [once_done] is the state of [once sync.Once]. *)
Record Domain := mkDomain {
  Name : string;
  Addresses : list string;
  Nameservers : list string;
  nextIdx : Z;
  once_done : bool
}.

Definition ptr := positive.
Abbreviation heap := (gmap positive Domain).

(** [type Sdns struct], the fields the claims are about. *)
Record Sdns := mkSdns {
  exactDomains : gmap string ptr;
  wildcardDomains : gmap string ptr;
  recursors : list string
}.

(** [type SdnsConfig struct]. *)
Record SdnsConfig := mkSdnsConfig {
  Port : Z;
  Address : string;
  Debug : bool;
  Recursors : list string;
  Domains : list ptr
}.

Definition set_exact (s : Sdns) (m : gmap string ptr) : Sdns :=
  mkSdns m (wildcardDomains s) (recursors s).
Definition set_wildcard (s : Sdns) (m : gmap string ptr) : Sdns :=
  mkSdns (exactDomains s) m (recursors s).

(** The zero value of [Sdns]. *)
Definition sdns_zero : Sdns := mkSdns ∅ ∅ [].

(** ** Load *)

Inductive LoadError := ErrMalformedWildcard.

(** The [for _, domain := range cfg.Domains] loop of [Load]. *)
Fixpoint load_loop (h : heap) (cfg : list ptr) (s : Sdns)
    : go (Sdns * option LoadError) :=
  match cfg with
  | [] => Ret (s, None)
  | p :: rest =>
      match h !! p with
      | None => Panic                                (* nil dereference *)
      | Some domain =>
          match Name domain with
          | EmptyString => Panic                     (* domain.Name[0] *)
          | String c0 tl =>
              if ascii_eqb c0 "*"%char then
                match tl with
                | EmptyString => Panic               (* domain.Name[1] *)
                | String c1 _ =>
                    if ascii_eqb c1 "."%char then
                      load_loop h rest
                        (set_wildcard s (<[tl := p]> (wildcardDomains s)))
                    else Ret (s, Some ErrMalformedWildcard)
                end
              else
                load_loop h rest
                  (set_exact s (<[Name domain := p]> (exactDomains s)))
          end
      end
  end.

(** [func (s *Sdns) Load(cfg SdnsConfig) (err error)]: the receiver's new
    state and the returned error. *)
Definition Load (h : heap) (s : Sdns) (cfg : SdnsConfig)
    : go (Sdns * option LoadError) :=
  let s0 := mkSdns ∅ ∅ (recursors s) in
  match Domains cfg with
  | [] => Ret (s0, None)
  | ds => load_loop h ds s0
  end.

Inductive NewSdnsError := ErrNoPort | ErrLoad (e : LoadError).

(** [func NewSdns(cfg SdnsConfig) (s Sdns, err error)]. *)
Definition NewSdns (h : heap) (cfg : SdnsConfig)
    : go (Sdns * option NewSdnsError) :=
  if Port cfg =? 0 then Ret (sdns_zero, Some ErrNoPort)
  else
    match Load h sdns_zero cfg with
    | Panic => Panic
    | Ret (s, Some e) => Ret (s, Some (ErrLoad e))
    | Ret (s, None) => Ret (mkSdns (exactDomains s) (wildcardDomains s)
                                   (Recursors cfg), None)
    end.

(** ** FindDomainFromName *)

Definition FindDomainFromName (s : Sdns) (name : string) : option ptr * bool :=
  if String.eqb name "" then (None, false)
  else
    match exactDomains s !! name with
    | Some d => (Some d, true)
    | None =>
        let lastDomainNdx := IndexByte name "."%char in
        if lastDomainNdx <? 0 then (None, false)
        else
          let strippedDomain := str_drop (Z.to_nat lastDomainNdx) name in
          match wildcardDomains s !! strippedDomain with
          | Some d => (Some d, true)
          | None => (None, false)
          end
    end.

(** The test fixture of [TestFindDomainFromName_wildcardDomain]. *)
Definition dom (n : string) : Domain :=
  mkDomain n ["192.168.0.103"%string] ["us1.sdns.io"%string] 0 false.
Definition test_heap : heap :=
  <[1%positive := dom "*.something.com"]> (<[2%positive := dom "something.com"]> ∅).
Definition test_cfg : SdnsConfig :=
  mkSdnsConfig 1232 ":" false [] [1%positive; 2%positive].


(** ** GetAddress *)

Definition two64 : Z := 2 ^ 64.

Definition set_nextIdx (d : Domain) (n : Z) : Domain :=
  mkDomain (Name d) (Addresses d) (Nameservers d) n (once_done d).

(** [func (d *Domain) init()]: [d.nextIdx = uint64(time.Now().UnixNano())],
    [now] being the [int64] nanosecond clock. *)
Definition init (now : Z) (d : Domain) : Domain := set_nextIdx d (now mod two64).

(** [d.once.Do(d.init)]. *)
Definition once_Do (now : Z) (d : Domain) : Domain :=
  if once_done d then d
  else let d' := init now d in
       mkDomain (Name d') (Addresses d') (Nameservers d') (nextIdx d') true.

(** [func (d *Domain) GetAddress() string]. *)
Definition GetAddress (now : Z) (d : Domain) : go (string * Domain) :=
  let d1 := once_Do now d in
  let d2 := set_nextIdx d1 ((nextIdx d1 + 1) mod two64) in
  let n := Z.of_nat (length (Addresses d2)) in
  if n =? 0 then Panic                                (* % by zero *)
  else
    match nth_error (Addresses d2) (Z.to_nat (nextIdx d2 mod n)) with
    | Some a => Ret (a, d2)
    | None => Panic
    end.

(** Consecutive calls on one record, the [i]-th at clock [nows !! i]. *)
Fixpoint GetAddresses (nows : list Z) (d : Domain) : go (list string * Domain) :=
  match nows with
  | [] => Ret ([], d)
  | now :: rest =>
      match GetAddress now d with
      | Panic => Panic
      | Ret (a, d') =>
          match GetAddresses rest d' with
          | Panic => Panic
          | Ret (l, d'') => Ret (a :: l, d'')
          end
      end
  end.

(** The address a counter value selects. *)
Definition pick (addrs : list string) (c : Z) : string :=
  nth (Z.to_nat (c mod Z.of_nat (length addrs))) addrs ""%string.

(** ** DNS messages (the parts of [github.com/miekg/dns] the handler uses) *)

Definition OpcodeQuery : Z := 0.
Definition TypeA : Z := 1.
Definition TypeNS : Z := 2.

Record Question := mkQuestion { qName : string; Qtype : Z }.

(** A resource record, in its presentation form. *)
Record RR := mkRR { rr_text : string }.

Record Msg := mkMsg {
  Id : Z;
  Opcode : Z;
  RecursionDesired : bool;
  Msg_Question : list Question;
  Answer : list RR
}.

Definition set_answer (m : Msg) (a : list RR) : Msg :=
  mkMsg (Id m) (Opcode m) (RecursionDesired m) (Msg_Question m) a.

(** [m.SetReply(r)] of miekg/dns on the zero [dns.Msg]: id and opcode are
    copied, only the first question is kept, the answer section is empty. *)
Definition SetReply (r : Msg) : Msg :=
  mkMsg (Id r) (Opcode r)
        (if Opcode r =? OpcodeQuery then RecursionDesired r else false)
        (firstn 1 (Msg_Question r)) [].

(** Errors returned by the answer functions. *)
Inductive AnswerError :=
| ErrDomainNotFound
| ErrNoQuestions
| ErrUnsupportedQueryType
| ErrCouldntCreateRR.

(** What the handler does to the outside world: a Domain Table lookup, or
    one [s.client.Exchange(rm, server)] round trip. *)
Inductive event :=
| EvFindDomain (name : string)
| EvExchange (server : string) (rm : Msg).

Section Handler.

(** [dns.NewRR]: parses a presentation-format record, or fails. *)
Variable NewRR : string -> option RR.
(** [s.client.Exchange(rm, server)]: the upstream reply, or a transport
    error ([None]). *)
Variable Exchange : Msg -> string -> option Msg.

Fixpoint ns_loop (name : string) (nss : list string) (m : Msg)
    : Msg * option AnswerError :=
  match nss with
  | [] => (m, None)
  | ns :: rest =>
      match NewRR (String.append name (String.append " NS " ns)) with
      | None => (m, Some ErrCouldntCreateRR)
      | Some rr => ns_loop name rest (set_answer m (Answer m ++ [rr]))
      end
  end.

(** [func (s *Sdns) answerNS(ctx, m *dns.Msg) (err error)]. *)
Definition answerNS (s : Sdns) (h : heap) (m : Msg)
    : go (Msg * option AnswerError * list event) :=
  match Msg_Question m with
  | [] => Panic                                     (* m.Question[0] *)
  | q :: _ =>
      let name := qName q in
      let key := TrimRightDot name in
      match FindDomainFromName s key with
      | (_, false) => Ret (m, Some ErrDomainNotFound, [EvFindDomain key])
      | (None, true) => Panic
      | (Some p, true) =>
          match h !! p with
          | None => Panic
          | Some domain =>
              let '(m', err) := ns_loop name (Nameservers domain) m in
              Ret (m', err, [EvFindDomain key])
          end
      end
  end.

(** [func (s *Sdns) answerA(ctx, m *dns.Msg) (err error)]; the record's
    counter is updated in the heap. *)
Definition answerA (s : Sdns) (h : heap) (now : Z) (m : Msg)
    : go (heap * Msg * option AnswerError * list event) :=
  match Msg_Question m with
  | [] => Panic
  | q :: _ =>
      let name := qName q in
      let key := TrimRightDot name in
      match FindDomainFromName s key with
      | (_, false) => Ret (h, m, Some ErrDomainNotFound, [EvFindDomain key])
      | (None, true) => Panic
      | (Some p, true) =>
          match h !! p with
          | None => Panic
          | Some domain =>
              match GetAddress now domain with
              | Panic => Panic
              | Ret (addr, domain') =>
                  let h' := <[p := domain']> h in
                  match NewRR (String.append name (String.append " A " addr)) with
                  | None => Ret (h', m, Some ErrCouldntCreateRR, [EvFindDomain key])
                  | Some rr =>
                      Ret (h', set_answer m (Answer m ++ [rr]), None, [EvFindDomain key])
                  end
              end
          end
      end
  end.

(** [func (s *Sdns) answerQuery(ctx, m *dns.Msg) (err error)]. *)
Definition answerQuery (s : Sdns) (h : heap) (now : Z) (m : Msg)
    : go (heap * Msg * option AnswerError * list event) :=
  match Msg_Question m with
  | [] => Ret (h, m, Some ErrNoQuestions, [])
  | q :: _ =>
      if Qtype q =? TypeA then answerA s h now m
      else if Qtype q =? TypeNS then
        match answerNS s h m with
        | Panic => Panic
        | Ret (m', err, tr) => Ret (h, m', err, tr)
        end
      else Ret (h, m, Some ErrUnsupportedQueryType, [])
  end.

(** The message [recurse] sends: [&dns.Msg{Question: m.Question}] with
    [RecursionDesired = true]. *)
Definition recurse_msg (m : Msg) : Msg :=
  mkMsg 0 0 true (Msg_Question m) [].

(** [func (s *Sdns) recurse(ctx, m, server) (in *dns.Msg, err error)]. *)
Definition recurse (m : Msg) (server : string) : option Msg * list event :=
  let rm := recurse_msg m in
  (Exchange rm server, [EvExchange server rm]).

(** The [for _, server := range s.recursors] loop of [handle]. *)
Fixpoint recurse_loop (servers : list string) (m : Msg) : Msg * list event :=
  match servers with
  | [] => (m, [])
  | server :: rest =>
      match recurse m server with
      | (None, tr) =>                                   (* continue *)
          let '(m', tr') := recurse_loop rest m in (m', tr ++ tr')
      | (Some in_, tr) => (set_answer m (Answer in_), tr)  (* break *)
      end
  end.

(** [func (s *Sdns) handle(w dns.ResponseWriter, r *dns.Msg)]: the heap
    after the call, the message passed to [w.WriteMsg] and the trace. *)
Definition handle (s : Sdns) (h : heap) (now : Z) (r : Msg)
    : go (heap * Msg * list event) :=
  let m := SetReply r in
  if Opcode r =? OpcodeQuery then
    match answerQuery s h now m with
    | Panic => Panic
    | Ret (h', m', err, tr) =>
        match err with
        | Some ErrUnsupportedQueryType | Some ErrDomainNotFound =>
            let '(m'', tr') := recurse_loop (recursors s) m' in
            Ret (h', m'', tr ++ tr')
        | _ => Ret (h', m', tr)
        end
    end
  else Ret (h, m, []).

(** The recursion fallback as the dispatcher's description states it:
    upstreams in order, the first that answers wins; the servers contacted
    and the answer section obtained ([[]] when none answers). *)
Fixpoint upstream_answer (rm : Msg) (servers : list string)
    : list string * list RR :=
  match servers with
  | [] => ([], [])
  | server :: rest =>
      match Exchange rm server with
      | Some in_ => ([server], Answer in_)
      | None => let '(c, a) := upstream_answer rm rest in (server :: c, a)
      end
  end.

End Handler.

(** ** Configuration shapes (from the spec's vocabulary) *)

(** A well-formed configured name: an exact name (non-empty, not starting
    with the wildcard marker) or a wildcard name ["*." ++ suffix]. *)
Definition wellformed_name (n : string) : Prop :=
  (exists c r, n = String c r /\ c <> "*"%char) \/
  (exists r, n = String "*" (String "." r)).

Definition wellformed_record (h : heap) (p : ptr) : Prop :=
  exists d, h !! p = Some d /\ wellformed_name (Name d).

(** A malformed wildcard name of the kind [Load] checks for: the marker
    followed by a character other than the separator. *)
Definition malformed_wildcard (n : string) : Prop :=
  exists c r, n = String "*" (String c r) /\ c <> "."%char.

(** The shape of the two indexes: exact keys are the names of their
    records and do not start with the marker; wildcard keys are the names
    of their records without the leading ['*'] and start with ['.']. *)
Definition index_shapes (h : heap) (t : Sdns) : Prop :=
  (forall k p, exactDomains t !! k = Some p ->
     exists d c r, h !! p = Some d /\ Name d = k /\ k = String c r /\ c <> "*"%char) /\
  (forall k p, wildcardDomains t !! k = Some p ->
     exists d r, h !! p = Some d /\ Name d = String "*" k /\ k = String "." r).

(** A configuration with the pointers [ps] as its records. *)
Definition cfg_of (ps : list ptr) : SdnsConfig := mkSdnsConfig 1232 ":" false [] ps.

(** ** util.CsvStringToMap (src/util/string_parsing.go) *)

(** [s[:n]]. *)
Fixpoint str_take (n : nat) (s : string) : string :=
  match n, s with
  | O, _ => EmptyString
  | S n', String c tl => String c (str_take n' tl)
  | S _, EmptyString => EmptyString
  end.

(** [strings.Split(s, sep)] for a one-byte [sep]: [Split("", sep)] is [[""]]. *)
Fixpoint Split (s : string) (sep : Ascii.ascii) : list string :=
  match s with
  | EmptyString => [EmptyString]
  | String x tl =>
      let pieces := Split tl sep in
      if ascii_eqb x sep then EmptyString :: pieces
      else match pieces with
           | p :: ps => String x p :: ps
           | [] => [String x EmptyString]
           end
  end.

(** [strings.SplitN(s, sep, 2)] for a one-byte [sep]. *)
Definition SplitN2 (s : string) (sep : Ascii.ascii) : list string :=
  let i := IndexByte s sep in
  if i <? 0 then [s]
  else [str_take (Z.to_nat i) s; str_drop (S (Z.to_nat i)) s].

Inductive CsvError := ErrMalformedString (value : string).

(** The [for _, value := range values] loop of [CsvStringToMap]. *)
Fixpoint csv_loop (values : list string) (res : gmap string (list string))
    : gmap string (list string) * option CsvError :=
  match values with
  | [] => (res, None)
  | value :: rest =>
      match SplitN2 value "="%char with
      | [k; v] =>
          match res !! k with
          | None => csv_loop rest (<[k := [v]]> res)
          | Some slice => csv_loop rest (<[k := slice ++ [v]]> res)
          end
      | _ => (res, Some (ErrMalformedString value))
      end
  end.

(** [func CsvStringToMap(str string) (res map[string][]string, err error)]. *)
Definition CsvStringToMap (str : string) : gmap string (list string) * option CsvError :=
  csv_loop (Split str ","%char) ∅.

(** ** main: one positional domain argument (src/main.go) *)

(** The two [os.Exit(1)] of the loop body. *)
Inductive MainExit := ExitMalformedDomainConfiguration | ExitNoDomainName.

(** The body of [for idx, domainString := range args.Domains]: the
    [*Domain] built, or the exit taken. *)
Definition parse_domain (domainString : string) : go (Domain + MainExit) :=
  let '(mapping, err) := CsvStringToMap domainString in
  match err with
  | Some _ => Ret (inr ExitMalformedDomainConfiguration)
  | None =>
      match mapping !! "domain"%string with
      | None => Ret (inr ExitNoDomainName)
      | Some name =>
          match name with
          | [] => Panic                                    (* name[0] *)
          | n0 :: _ =>
              let ips := match mapping !! "ip"%string with Some l => l | None => [] end in
              let nss := match mapping !! "ns"%string with Some l => l | None => [] end in
              Ret (inl (mkDomain n0 ips nss 0 false))
          end
      end
  end.

(** ** Vocabulary for the properties of the parsers *)

(** [c] does not occur in [s]. *)
Definition no_byte (s : string) (c : Ascii.ascii) : Prop :=
  forall i, String.get i s <> Some c.

(** One ["key=value"] segment of a configuration string. *)
Definition csv_segment (kv : string * string) : string :=
  String.append (fst kv) (String "=" (snd kv)).

(** The comma-separated list of ["key=value"] segments. *)
Fixpoint csv_encode (kvs : list (string * string)) : string :=
  match kvs with
  | [] => EmptyString
  | [kv] => csv_segment kv
  | kv :: rest => String.append (csv_segment kv) (String "," (csv_encode rest))
  end.

(** The values given for [key], in order. *)
Definition values_of (key : string) (kvs : list (string * string)) : list string :=
  map snd (List.filter (fun kv => String.eqb (fst kv) key) kvs).

(** [k] separators: the trailing dots of a fully qualified name. *)
Fixpoint dots (k : nat) : string :=
  match k with
  | O => EmptyString
  | S k' => String "." (dots k')
  end.

(** The configured part of a record: what a reload sets and serving
    reads (the counter and the seed state excluded). *)
Definition config_of (d : Domain) : string * list string * list string :=
  (Name d, Addresses d, Nameservers d).

(** ** Fixtures for the examples *)

(** A table with an exact record and a wildcard one that both apply to
    ["a.something.com"]. *)
Definition overlap_table : Sdns :=
  mkSdns {[ "a.something.com"%string := 7%positive ]}
         {[ ".something.com"%string := 8%positive ]} [].

(** The name of the spec's design note: ["a.b.example.com"] with wildcards
    for [".b.example.com"] and [".example.com"]. *)
Definition two_wildcards : Sdns :=
  mkSdns ∅ {[ ".b.example.com"%string := 1%positive;
              ".example.com"%string := 2%positive ]} [].

(** A fresh record with three addresses. *)
Definition rr3 : Domain :=
  mkDomain "rr.example.com" ["10.0.0.1"%string; "10.0.0.2"%string; "10.0.0.3"%string]
           [] 0 false.

Definition addr1 : list string := ["10.0.0.1"%string].

(** A heap of records named [names], at pointers 1, 2, ... *)
Fixpoint heap_of_from (i : positive) (names : list string) : heap :=
  match names with
  | [] => ∅
  | n :: rest => <[i := mkDomain n addr1 [] 0 false]> (heap_of_from (Pos.succ i) rest)
  end.
Definition heap_of (names : list string) : heap := heap_of_from 1 names.

(** A table holding ["a.com"] before a reload. *)
Definition table_a : Sdns := mkSdns {[ "a.com"%string := 3%positive ]} ∅ [].

(** The table the repository's wildcard test loads. *)
Definition test_table : Sdns :=
  mkSdns {[ "something.com"%string := 2%positive ]}
         {[ ".something.com"%string := 1%positive ]} [].

(** Upstreams for the examples: ["10.0.0.9"] is unreachable, ["8.8.8.8"]
    answers with one record. *)
Definition upstream_rr : RR := mkRR "nomatch.com. 300 IN A 1.2.3.4".
Definition test_exchange (rm : Msg) (server : string) : option Msg :=
  if String.eqb server "8.8.8.8" then Some (mkMsg 0 0 true (Msg_Question rm) [upstream_rr])
  else None.
Definition test_newrr (txt : string) : option RR := Some (mkRR txt).
Definition two_recursors : Sdns := mkSdns ∅ ∅ ["10.0.0.9"%string; "8.8.8.8"%string].
Definition a_query (name : string) : Msg :=
  mkMsg 42 OpcodeQuery true [mkQuestion name TypeA] [].
Definition ns_query (name : string) : Msg :=
  mkMsg 43 OpcodeQuery true [mkQuestion name TypeNS] [].
(** A record parser that rejects one NS record. *)
Definition strict_newrr (txt : string) : option RR :=
  if String.eqb txt "test.something.com. NS us1.sdns.io" then None
  else Some (mkRR txt).
(** A record with a second nameserver. *)
Definition ns_heap : heap :=
  <[1%positive := mkDomain "*.something.com" [] ["ns1.x"%string; "us1.sdns.io"%string] 0 false]> ∅.

(** * Properties *)

(** The repository test [TestFindDomainFromName_wildcardDomain]. *)
Example test_wildcard_scenario :
  match NewSdns test_heap test_cfg with
  | Ret (s, None) =>
      [FindDomainFromName s ""; FindDomainFromName s "aa";
       FindDomainFromName s "."; FindDomainFromName s "something.com";
       FindDomainFromName s "test.something.com";
       FindDomainFromName s ".something.com";
       FindDomainFromName s "else.nomatch.com"]
  | _ => []
  end =
  [(None, false); (None, false); (None, false); (Some 2%positive, true);
   (Some 1%positive, true); (Some 1%positive, true); (None, false)].
Proof. vm_compute. reflexivity. Qed.

(** ** String lemmas *)

Lemma IndexByte_app_first (pre post : string) :
  (forall i c, String.get i pre = Some c -> c <> "."%char) ->
  IndexByte (String.append pre (String "." post)) "."%char = Z.of_nat (String.length pre).
Proof.
  induction pre as [|c pre IH]; intros Hpre; simpl.
  - reflexivity.
  - assert (Hc : c <> "."%char) by (apply (Hpre 0%nat); reflexivity).
    unfold ascii_eqb at 1. destruct (decide (c = "."%char)); [contradiction|].
    rewrite IH by (intros i c' Hg; apply (Hpre (S i)); exact Hg).
    destruct (Z.ltb_spec (Z.of_nat (String.length pre)) 0); lia.
Qed.

Lemma str_drop_app (pre post : string) :
  str_drop (String.length pre) (String.append pre post) = post.
Proof. induction pre as [|c pre IH]; simpl; [destruct post|]; auto. Qed.

(** ** FindDomainFromName *)

(** C1: for a non-empty name with a record under that literal name in the
    exact index, [FindDomainFromName] returns that record and reports found,
    whatever the wildcard index holds. *)
Theorem find_exact_priority (s : Sdns) (name : string) (p : ptr) :
  name <> ""%string ->
  exactDomains s !! name = Some p ->
  FindDomainFromName s name = (Some p, true).
Proof.
  intros Hne Hex. unfold FindDomainFromName.
  destruct (String.eqb_spec name ""); [contradiction|].
  rewrite Hex. reflexivity.
Qed.

Lemma find_exact_priority_witness :
  ("a.something.com"%string <> ""%string /\
   exactDomains overlap_table !! "a.something.com"%string = Some 7%positive) /\
  FindDomainFromName overlap_table "a.something.com" = (Some 7%positive, true).
Proof.
  split; [split; [discriminate | reflexivity]|].
  apply find_exact_priority; [discriminate | reflexivity].
Defined.

(** C2: for a name [pre ++ "." ++ post] whose prefix [pre] has no ['.']
    and which has no exact record, [FindDomainFromName] probes the
    wildcard index with the suffix ["." ++ post] only, returning the record
    found there, or not found. *)
Theorem find_wildcard_first_separator (s : Sdns) (pre post : string) :
  (forall i c, String.get i pre = Some c -> c <> "."%char) ->
  exactDomains s !! String.append pre (String "." post) = None ->
  FindDomainFromName s (String.append pre (String "." post)) =
    match wildcardDomains s !! String "." post with
    | Some p => (Some p, true)
    | None => (None, false)
    end.
Proof.
  intros Hpre Hex. unfold FindDomainFromName.
  destruct (String.eqb_spec (String.append pre (String "." post)) "") as [He|_].
  { destruct pre; discriminate He. }
  rewrite Hex, IndexByte_app_first by exact Hpre.
  destruct (Z.ltb_spec (Z.of_nat (String.length pre)) 0); [lia|].
  rewrite Nat2Z.id, str_drop_app. reflexivity.
Qed.

Lemma find_wildcard_first_separator_witness :
  FindDomainFromName two_wildcards "a.b.example.com" = (Some 1%positive, true).
Proof.
  apply (find_wildcard_first_separator two_wildcards "a" "b.example.com").
  - intros i c Hg. destruct i as [|[|i]]; simpl in Hg; inversion Hg; discriminate.
  - reflexivity.
Defined.

(** C8: the empty name is never found; ["."] is not found when neither an
    exact record ["."] nor a wildcard with suffix ["."] is loaded, in
    particular on the empty table. *)
Theorem find_empty_and_dot (s : Sdns) :
  FindDomainFromName s "" = (None, false) /\
  (exactDomains s !! "."%string = None ->
   wildcardDomains s !! "."%string = None ->
   FindDomainFromName s "." = (None, false)).
Proof.
  split; [reflexivity|].
  intros Hex Hwc. unfold FindDomainFromName. simpl.
  rewrite Hex. simpl. rewrite Hwc. reflexivity.
Qed.

Lemma find_empty_and_dot_witness :
  FindDomainFromName sdns_zero "" = (None, false) /\
  FindDomainFromName sdns_zero "." = (None, false).
Proof.
  destruct (find_empty_and_dot sdns_zero) as [H1 H2].
  split; [exact H1 | apply H2; reflexivity].
Defined.

(** ** GetAddress *)

Lemma once_Do_idem (now now' : Z) (d : Domain) :
  once_Do now' (once_Do now d) = once_Do now d.
Proof. unfold once_Do. destruct (once_done d) eqn:E; rewrite ?E; reflexivity. Qed.

Lemma once_Do_done (now : Z) (d : Domain) : once_done (once_Do now d) = true.
Proof. unfold once_Do. destruct (once_done d) eqn:E; [exact E | reflexivity]. Qed.

Lemma once_Do_Addresses (now : Z) (d : Domain) :
  Addresses (once_Do now d) = Addresses d.
Proof. unfold once_Do. destruct (once_done d); reflexivity. Qed.

Lemma pick_nth_error (addrs : list string) (c : Z) :
  (0 < length addrs)%nat ->
  nth_error addrs (Z.to_nat (c mod Z.of_nat (length addrs))) = Some (pick addrs c).
Proof.
  intros Hn. unfold pick. apply nth_error_nth'.
  pose proof (Z.mod_pos_bound c (Z.of_nat (length addrs)) ltac:(lia)). lia.
Qed.

Lemma GetAddress_done (now : Z) (d : Domain) :
  once_done d = true -> (0 < length (Addresses d))%nat ->
  GetAddress now d =
    Ret (pick (Addresses d) ((nextIdx d + 1) mod two64),
         set_nextIdx d ((nextIdx d + 1) mod two64)).
Proof.
  intros Hdone Hn. unfold GetAddress, once_Do. rewrite Hdone. cbn [Addresses set_nextIdx nextIdx].
  destruct (Z.eqb_spec (Z.of_nat (length (Addresses d))) 0); [lia|].
  rewrite pick_nth_error by exact Hn. reflexivity.
Qed.

Lemma set_nextIdx_twice (d : Domain) (x y : Z) :
  set_nextIdx (set_nextIdx d x) y = set_nextIdx d y.
Proof. reflexivity. Qed.

(** After seeding, [n] calls select the counter values [c+1 .. c+n]
    (modulo [2^64]). *)
Lemma GetAddresses_done (nows : list Z) (d : Domain) :
  once_done d = true -> (0 < length (Addresses d))%nat ->
  exists d', GetAddresses nows d =
    Ret (map (fun k => pick (Addresses d) ((nextIdx d + Z.of_nat k) mod two64))
             (seq 1 (length nows)), d').
Proof.
  revert d. induction nows as [|now rest IH]; intros d Hdone Hn.
  - exists d. reflexivity.
  - cbn [GetAddresses]. rewrite GetAddress_done by assumption.
    destruct (IH (set_nextIdx d ((nextIdx d + 1) mod two64))) as [d' Hd'];
      [exact Hdone | exact Hn |].
    rewrite Hd'. exists d'. cbn [length seq map].
    rewrite <- (seq_shift (length rest) 1), map_map.
    f_equal. f_equal. f_equal. apply map_ext. intros k.
    cbn [nextIdx set_nextIdx Addresses]. f_equal.
    rewrite Zplus_mod_idemp_l. f_equal. lia.
Qed.

Lemma map_nth_seq0 (l : list string) :
  map (fun i => nth i l ""%string) (seq 0 (length l)) = l.
Proof.
  induction l as [|a l IH]; [reflexivity|].
  cbn [length seq map nth]. f_equal.
  rewrite <- seq_shift, map_map. exact IH.
Qed.

(** [N] consecutive counter values select every index exactly once. *)
Lemma rr_indices_perm (N : nat) (c : Z) :
  (0 < N)%nat ->
  Permutation (map (fun k => Z.to_nat ((c + Z.of_nat k) mod Z.of_nat N)) (seq 1 N))
              (seq 0 N).
Proof.
  intros HN. apply NoDup_Permutation_bis.
  - apply NoDup_map_NoDup_ForallPairs; [|apply seq_NoDup].
    intros a b Ha Hb Heq. apply in_seq in Ha, Hb.
    pose proof (Z.mod_pos_bound (c + Z.of_nat a) (Z.of_nat N) ltac:(lia)).
    pose proof (Z.mod_pos_bound (c + Z.of_nat b) (Z.of_nat N) ltac:(lia)).
    apply Z2Nat.inj in Heq; [|lia|lia].
    pose proof (Z.div_mod (c + Z.of_nat a) (Z.of_nat N) ltac:(lia)) as Da.
    pose proof (Z.div_mod (c + Z.of_nat b) (Z.of_nat N) ltac:(lia)) as Db.
    set (qa := (c + Z.of_nat a) / Z.of_nat N) in *.
    set (qb := (c + Z.of_nat b) / Z.of_nat N) in *.
    assert (Hq : qa = qb).
    { destruct (Z.lt_trichotomy qa qb) as [Hlt|[Heq'|Hgt]]; [|exact Heq'|]; nia. }
    lia.
  - rewrite length_map, !length_seq. lia.
  - intros y Hy. apply in_map_iff in Hy as [k [<- Hk]]. apply in_seq.
    pose proof (Z.mod_pos_bound (c + Z.of_nat k) (Z.of_nat N) ltac:(lia)). lia.
Qed.

Lemma rr_window_perm (addrs : list string) (c : Z) :
  (0 < length addrs)%nat ->
  Permutation (map (fun k => pick addrs (c + Z.of_nat k)) (seq 1 (length addrs))) addrs.
Proof.
  intros Hn.
  replace (map (fun k => pick addrs (c + Z.of_nat k)) (seq 1 (length addrs)))
    with (map (fun i => nth i addrs ""%string)
              (map (fun k => Z.to_nat ((c + Z.of_nat k) mod Z.of_nat (length addrs)))
                   (seq 1 (length addrs))))
    by (rewrite map_map; reflexivity).
  rewrite <- (map_nth_seq0 addrs) at 2.
  apply Permutation_map, rr_indices_perm, Hn.
Qed.

(** C3 (amended): from any record with [N >= 1] addresses, [N] consecutive
    calls select [addresses[(c+k) mod N]] for [k = 1..N], [c] being the
    counter once the one-time seed has run, and so visit every address
    exactly once, provided the window does not cross the [uint64]
    wrap-around point or [N] divides [2^64]. *)
Theorem round_robin_window (d : Domain) (now : Z) (nows : list Z) :
  (0 < length (Addresses d))%nat ->
  length (now :: nows) = length (Addresses d) ->
  0 <= nextIdx (once_Do now d) ->
  (nextIdx (once_Do now d) + Z.of_nat (length (Addresses d)) < two64 \/
   (Z.of_nat (length (Addresses d)) | two64)) ->
  exists d',
    GetAddresses (now :: nows) d =
      Ret (map (fun k => pick (Addresses d) (nextIdx (once_Do now d) + Z.of_nat k))
               (seq 1 (length (Addresses d))), d') /\
    Permutation
      (map (fun k => pick (Addresses d) (nextIdx (once_Do now d) + Z.of_nat k))
           (seq 1 (length (Addresses d))))
      (Addresses d).
Proof.
  intros Hn Hlen Hc Hwrap.
  set (d1 := once_Do now d).
  assert (E : GetAddresses (now :: nows) d = GetAddresses (now :: nows) d1).
  { cbn [GetAddresses]. unfold GetAddress at 1 2. subst d1.
    rewrite once_Do_idem. reflexivity. }
  assert (Hd1 : Addresses d1 = Addresses d) by apply once_Do_Addresses.
  destruct (GetAddresses_done (now :: nows) d1) as [d' Hd'];
    [apply once_Do_done | rewrite Hd1; exact Hn |].
  exists d'. split; [|apply rr_window_perm, Hn].
  rewrite E, Hd', Hd1, Hlen. f_equal. f_equal. apply map_ext_in.
  intros k Hk. apply in_seq in Hk. unfold pick. f_equal. f_equal.
  subst d1. destruct Hwrap as [Hsmall | Hdiv].
  - rewrite (Z.mod_small _ two64) by lia. reflexivity.
  - apply Z.mod_mod_divide. exact Hdiv.
Qed.

Lemma round_robin_window_witness :
  exists d',
    GetAddresses [5; 6; 7] rr3 =
      Ret (map (fun k => pick (Addresses rr3) (nextIdx (once_Do 5 rr3) + Z.of_nat k))
               (seq 1 (length (Addresses rr3))), d') /\
    Permutation
      (map (fun k => pick (Addresses rr3) (nextIdx (once_Do 5 rr3) + Z.of_nat k))
           (seq 1 (length (Addresses rr3))))
      (Addresses rr3).
Proof.
  apply (round_robin_window rr3 5 [6; 7]).
  - simpl. lia.
  - reflexivity.
  - vm_compute. discriminate.
  - left. vm_compute. reflexivity.
Defined.

(** C3 as stated fails across the [uint64] wrap-around: a record first
    used at clock [-2] (a [UnixNano] before 1970) is seeded with
    [2^64 - 2]; three calls select the counter values [2^64 - 1], [0], [1],
    i.e. indices 0, 0, 1, since [2^64 mod 3 = 1]: ["10.0.0.1"] twice and
    ["10.0.0.3"] never. *)
Lemma round_robin_wrap_counterexample :
  GetAddresses [-2; 0; 0] rr3 =
    Ret (["10.0.0.1"%string; "10.0.0.1"%string; "10.0.0.2"%string],
         mkDomain "rr.example.com" (Addresses rr3) [] 1 true) /\
  ~ (exists l d', GetAddresses [-2; 0; 0] rr3 = Ret (l, d') /\
                  Permutation l (Addresses rr3)).
Proof.
  assert (E : GetAddresses [-2; 0; 0] rr3 =
    Ret (["10.0.0.1"%string; "10.0.0.1"%string; "10.0.0.2"%string],
         mkDomain "rr.example.com" (Addresses rr3) [] 1 true))
    by (vm_compute; reflexivity).
  split; [exact E|].
  intros (l & d' & Hl & Hp). rewrite E in Hl. injection Hl as <- _.
  apply Permutation_sym in Hp.
  apply (Permutation_in "10.0.0.3"%string) in Hp; [|simpl; tauto].
  simpl in Hp. intuition discriminate.
Qed.

(** ** Load *)

Lemma Load_loop (h : heap) (s : Sdns) (cfg : SdnsConfig) :
  Load h s cfg = load_loop h (Domains cfg) (mkSdns ∅ ∅ (recursors s)).
Proof. unfold Load. destruct (Domains cfg); reflexivity. Qed.

(** A prefix of well-formed records is loaded without error, and the rest
    of the loop continues from the table it built. *)
Lemma load_loop_wellformed_prefix (h : heap) (pre : list ptr) (s : Sdns) :
  Forall (wellformed_record h) pre ->
  exists t, load_loop h pre s = Ret (t, None) /\
            forall rest, load_loop h (pre ++ rest) s = load_loop h rest t.
Proof.
  intros Hpre. revert s. induction Hpre as [|p pre Hp Hpre IH]; intros s.
  - exists s. split; reflexivity.
  - destruct Hp as (d & Hd & Hwf).
    destruct Hwf as [(c & r & Hn & Hc) | (r & Hn)].
    + destruct (IH (set_exact s (<[Name d := p]> (exactDomains s)))) as (t & Ht & Hrest).
      rewrite Hn in Ht, Hrest.
      exists t. cbn [load_loop app]. rewrite Hd, Hn.
      unfold ascii_eqb. destruct (decide (c = "*"%char)); [contradiction|].
      split; [exact Ht | intros rest; apply Hrest].
    + destruct (IH (set_wildcard s (<[String "." r := p]> (wildcardDomains s))))
        as (t & Ht & Hrest).
      exists t. cbn [load_loop app]. rewrite Hd, Hn. cbn.
      split; [exact Ht | intros rest; apply Hrest].
Qed.

(** The loop's result depends on the receiver only through its indexes. *)
Lemma load_loop_recursors (h : heap) (cfg : list ptr) (e w : gmap string ptr)
    (r r' : list string) :
  load_loop h cfg (mkSdns e w r') =
    match load_loop h cfg (mkSdns e w r) with
    | Ret (t, err) => Ret (mkSdns (exactDomains t) (wildcardDomains t) r', err)
    | Panic => Panic
    end.
Proof.
  revert e w. induction cfg as [|p rest IH]; intros e w; [reflexivity|].
  cbn [load_loop]. destruct (h !! p) as [d|]; [|reflexivity].
  destruct (Name d) as [|c0 tl]; [reflexivity|].
  destruct (ascii_eqb c0 "*"); [|apply IH].
  destruct tl as [|c1 tl']; [reflexivity|].
  destruct (ascii_eqb c1 "."); [apply IH | reflexivity].
Qed.

(** C6 (code bug): the name ["*"] starts with the wildcard marker not
    followed by the separator, yet [Load] does not return the
    malformed-wildcard error for it: [domain.Name[1]] is out of range and
    [Load], hence [NewSdns], panics. The sibling input ["*x"] gets the
    error. *)
Theorem load_star_panics :
  Load (heap_of ["*"%string]) sdns_zero (cfg_of [1%positive]) = Panic /\
  NewSdns (heap_of ["*"%string]) (cfg_of [1%positive]) = Panic /\
  Load (heap_of ["*x"%string]) sdns_zero (cfg_of [1%positive]) =
    Ret (mkSdns ∅ ∅ [], Some ErrMalformedWildcard).
Proof. split; [|split]; vm_compute; reflexivity. Qed.

(** C7 (amended): [Load] is not transactional. When it meets a malformed
    wildcard after a well-formed prefix [pre], it returns the error with
    the indexes holding exactly the table built from [pre] alone, whatever
    the receiver's previous table was. *)
Theorem load_error_keeps_prefix (h : heap) (s : Sdns) (cfg : SdnsConfig)
    (pre post : list ptr) (p : ptr) (d : Domain) :
  Domains cfg = pre ++ p :: post ->
  Forall (wellformed_record h) pre ->
  h !! p = Some d ->
  malformed_wildcard (Name d) ->
  exists t,
    Load h s cfg = Ret (t, Some ErrMalformedWildcard) /\
    forall s' : Sdns,
      Load h s' (cfg_of pre) =
        Ret (mkSdns (exactDomains t) (wildcardDomains t) (recursors s'), None).
Proof.
  intros Hcfg Hpre Hd (c & r & Hn & Hc).
  destruct (load_loop_wellformed_prefix h pre (mkSdns ∅ ∅ (recursors s)) Hpre)
    as (t & Ht & Hrest).
  exists t. split.
  - rewrite Load_loop, Hcfg, Hrest. cbn [load_loop]. rewrite Hd, Hn.
    cbn -[ascii_eqb]. unfold ascii_eqb. destruct (decide (c = "."%char)); [contradiction|].
    reflexivity.
  - intros s'. rewrite Load_loop. cbn [Domains cfg_of].
    rewrite (load_loop_recursors h pre ∅ ∅ (recursors s) (recursors s')), Ht.
    reflexivity.
Qed.

Lemma load_error_keeps_prefix_witness :
  exists t,
    Load (heap_of ["b.com"%string; "*x.com"%string]) sdns_zero
         (cfg_of [1%positive; 2%positive]) = Ret (t, Some ErrMalformedWildcard) /\
    forall s' : Sdns,
      Load (heap_of ["b.com"%string; "*x.com"%string]) s' (cfg_of [1%positive]) =
        Ret (mkSdns (exactDomains t) (wildcardDomains t) (recursors s'), None).
Proof.
  apply (load_error_keeps_prefix _ sdns_zero _ [1%positive] [] 2%positive
           (mkDomain "*x.com" addr1 [] 0 false)).
  - reflexivity.
  - constructor; [|constructor].
    exists (mkDomain "b.com" addr1 [] 0 false). split; [reflexivity|].
    left. exists "b"%char, ".com"%string. split; [reflexivity | discriminate].
  - reflexivity.
  - exists "x"%char, ".com"%string. split; [reflexivity | discriminate].
Defined.

(** C7 as stated fails: reloading [table_a] with ["b.com"; "*x.com"]
    returns the malformed-wildcard error and leaves a table where the
    previous ["a.com"] is gone and the new ["b.com"] is present. *)
Lemma reload_partial_counterexample :
  match Load (heap_of ["b.com"%string; "*x.com"%string]) table_a
             (cfg_of [1%positive; 2%positive]) with
  | Ret (t, Some ErrMalformedWildcard) =>
      FindDomainFromName table_a "a.com" = (Some 3%positive, true) /\
      FindDomainFromName t "a.com" = (None, false) /\
      FindDomainFromName t "b.com" = (Some 1%positive, true)
  | _ => False
  end.
Proof. vm_compute. split; [|split]; reflexivity. Qed.

Lemma load_loop_shapes (h : heap) (cfg : list ptr) (s t : Sdns) :
  index_shapes h s -> load_loop h cfg s = Ret (t, None) -> index_shapes h t.
Proof.
  revert s. induction cfg as [|p rest IH]; intros s [Hex Hwc] Hl.
  - cbn in Hl. injection Hl as <-. split; assumption.
  - cbn [load_loop] in Hl. destruct (h !! p) as [d|] eqn:Hd; [|discriminate].
    destruct (Name d) as [|c0 tl] eqn:Hn; [discriminate|].
    unfold ascii_eqb in Hl.
    destruct (decide (c0 = "*"%char)) as [->|Hc0].
    + destruct tl as [|c1 tl']; [discriminate|].
      destruct (decide (c1 = "."%char)) as [->|]; [|discriminate].
      refine (IH _ _ Hl). split.
      * exact Hex.
      * intros k q Hk. cbn [wildcardDomains set_wildcard] in Hk.
        destruct (decide (k = String "." tl')) as [->|Hne].
        -- rewrite lookup_insert_eq in Hk. injection Hk as <-.
           exists d, tl'. auto.
        -- rewrite lookup_insert_ne in Hk by congruence. apply (Hwc k q Hk).
    + refine (IH _ _ Hl). split.
      * intros k q Hk. cbn [exactDomains set_exact] in Hk.
        destruct (decide (k = String c0 tl)) as [->|Hne].
        -- rewrite lookup_insert_eq in Hk. injection Hk as <-.
           exists d, c0, tl. auto.
        -- rewrite lookup_insert_ne in Hk by congruence. apply (Hex k q Hk).
      * exact Hwc.
Qed.

(** C9 (amended): after a successful [Load], the exact index holds only
    records whose name does not start with ['*'], each under its own name,
    and the wildcard index only records named ["*." ++ ...], each under its
    name without the ['*']. *)
Theorem load_index_shapes (h : heap) (s t : Sdns) (cfg : SdnsConfig) :
  Load h s cfg = Ret (t, None) -> index_shapes h t.
Proof.
  rewrite Load_loop. apply load_loop_shapes.
  split; intros k q Hk; cbn in Hk; rewrite lookup_empty in Hk; discriminate.
Qed.

Lemma load_index_shapes_witness :
  Load test_heap sdns_zero test_cfg = Ret (test_table, None) /\
  index_shapes test_heap test_table.
Proof.
  split; [vm_compute; reflexivity|].
  apply (load_index_shapes test_heap sdns_zero test_table test_cfg).
  vm_compute. reflexivity.
Defined.

(** C9 as stated fails: with an exact record [".foo.com"] and a wildcard
    ["*.foo.com"], the key [".foo.com"] is in both indexes. *)
Lemma index_overlap_counterexample :
  match Load (heap_of [".foo.com"%string; "*.foo.com"%string]) sdns_zero
             (cfg_of [1%positive; 2%positive]) with
  | Ret (t, None) =>
      exactDomains t !! ".foo.com"%string = Some 1%positive /\
      wildcardDomains t !! ".foo.com"%string = Some 2%positive
  | _ => False
  end.
Proof. vm_compute. split; reflexivity. Qed.

Lemma load_loop_no_panic (h : heap) (l : list ptr) (s : Sdns) :
  Forall (fun p => exists d, h !! p = Some d /\ Name d <> ""%string /\ Name d <> "*"%string) l ->
  load_loop h l s <> Panic.
Proof.
  intros Hl. revert s. induction Hl as [|p l (d & Hd & Hne & Hns) Hl IH]; intros s.
  - discriminate.
  - cbn [load_loop]. rewrite Hd.
    destruct (Name d) as [|c0 tl]; [contradiction|].
    destruct (ascii_eqb c0 "*") eqn:E; [|apply IH].
    unfold ascii_eqb in E. destruct (decide (c0 = "*"%char)) as [->|]; [|discriminate].
    destruct tl as [|c1 tl']; [contradiction|].
    destruct (ascii_eqb c1 "."); [apply IH | discriminate].
Qed.

(** C10 (amended): [Load] never panics on a configuration whose records
    all have a non-empty name other than ["*"]; it panics (out-of-range
    index) on a record named [""] or ["*"] reached after a well-formed
    prefix, without returning an error. *)
Theorem load_crash_cases (h : heap) (s : Sdns) (cfg : SdnsConfig) :
  (Forall (fun p => exists d, h !! p = Some d /\ Name d <> ""%string /\ Name d <> "*"%string)
          (Domains cfg) ->
   Load h s cfg <> Panic) /\
  (forall pre post p d,
     Domains cfg = pre ++ p :: post ->
     Forall (wellformed_record h) pre ->
     h !! p = Some d ->
     Name d = ""%string \/ Name d = "*"%string ->
     Load h s cfg = Panic).
Proof.
  split.
  - intros Hall. rewrite Load_loop. apply load_loop_no_panic, Hall.
  - intros pre post p d Hcfg Hpre Hd Hn.
    destruct (load_loop_wellformed_prefix h pre (mkSdns ∅ ∅ (recursors s)) Hpre)
      as (t & _ & Hrest).
    rewrite Load_loop, Hcfg, Hrest. cbn [load_loop]. rewrite Hd.
    destruct Hn as [-> | ->]; reflexivity.
Qed.

Lemma load_crash_cases_witness :
  Load test_heap sdns_zero test_cfg <> Panic /\
  Load (heap_of ["a.com"%string; "*"%string]) sdns_zero
       (cfg_of [1%positive; 2%positive]) = Panic.
Proof.
  split.
  - apply (load_crash_cases test_heap sdns_zero test_cfg).
    repeat constructor.
    + eexists. split; [reflexivity | split; discriminate].
    + eexists. split; [reflexivity | split; discriminate].
  - apply (load_crash_cases _ sdns_zero _) with
      (pre := [1%positive]) (post := []) (p := 2%positive)
      (d := mkDomain "*" addr1 [] 0 false).
    + reflexivity.
    + constructor; [|constructor].
      exists (mkDomain "a.com" addr1 [] 0 false). split; [reflexivity|].
      left. exists "a"%char, ".com"%string. split; [reflexivity | discriminate].
    + reflexivity.
    + right. reflexivity.
Defined.

(** C10 as stated fails: a configuration containing a record named [""]
    does not crash [Load] when a malformed wildcard comes first; the
    malformed-wildcard error is returned. *)
Lemma load_empty_name_after_error_counterexample :
  Load (heap_of ["*x.com"%string; ""%string]) sdns_zero
       (cfg_of [1%positive; 2%positive]) =
    Ret (mkSdns ∅ ∅ [], Some ErrMalformedWildcard).
Proof. vm_compute. reflexivity. Qed.

(** ** The query dispatcher *)

Section Dispatch.

Variable NewRR : string -> option RR.
Variable Exchange : Msg -> string -> option Msg.

Lemma ns_loop_err (name : string) (nss : list string) (m m' : Msg) (e : AnswerError) :
  ns_loop NewRR name nss m = (m', Some e) -> e = ErrCouldntCreateRR.
Proof.
  revert m. induction nss as [|ns rest IH]; intros m H; cbn in H.
  - discriminate.
  - destruct (NewRR _); [apply (IH _ H) | congruence].
Qed.

(** On the two errors that trigger recursion, the answer functions leave
    the reply untouched. *)
Lemma answerQuery_fallback_msg (s : Sdns) (h h' : heap) (now : Z) (m m' : Msg)
    (e : AnswerError) (tr : list event) :
  answerQuery NewRR s h now m = Ret (h', m', Some e, tr) ->
  e = ErrDomainNotFound \/ e = ErrUnsupportedQueryType ->
  m' = m.
Proof.
  intros H He. unfold answerQuery, answerA, answerNS in H.
  destruct (Msg_Question m) as [|q qs] eqn:Eq.
  { inversion H; subst. destruct He; discriminate. }
  repeat match goal with
  | E : context [match ?x with _ => _ end] |- _ => destruct x eqn:?
  end;
  repeat match goal with
  | E : Ret _ = Ret _ |- _ => injection E; clear E; intros; subst
  end;
  try discriminate; try reflexivity; try (destruct He; discriminate).
  match goal with
  | E : ns_loop _ _ _ _ = (_, Some _) |- _ => apply ns_loop_err in E
  end.
  subst. destruct He; discriminate.
Qed.

Lemma set_answer_same (m : Msg) : set_answer m (Answer m) = m.
Proof. destruct m; reflexivity. Qed.

(** The loop of [handle] against the dispatcher's description. *)
Lemma recurse_loop_upstream_answer (servers : list string) (m : Msg) :
  Answer m = [] ->
  recurse_loop Exchange servers m =
    (set_answer m (snd (upstream_answer Exchange (recurse_msg m) servers)),
     map (fun sv => EvExchange sv (recurse_msg m))
         (fst (upstream_answer Exchange (recurse_msg m) servers))).
Proof.
  intros Hm. induction servers as [|sv rest IH].
  - cbn. rewrite <- Hm, set_answer_same. reflexivity.
  - cbn [recurse_loop upstream_answer recurse].
    destruct (Exchange (recurse_msg m) sv) as [in_|].
    + reflexivity.
    + rewrite IH. destruct (upstream_answer Exchange (recurse_msg m) rest). reflexivity.
Qed.

End Dispatch.

(** C4: when local resolution ends in [ErrDomainNotFound] or
    [ErrUnsupportedQueryType], [handle] exchanges with the recursors in
    configuration order until the first that answers, and replies with
    that upstream's answer section verbatim; with no answering upstream
    (or none configured) it still replies, with an empty answer section. *)
Theorem handle_recursion_fallback
    (NewRR : string -> option RR) (Exchange : Msg -> string -> option Msg)
    (s : Sdns) (h h' : heap) (now : Z) (r m' : Msg) (e : AnswerError)
    (tr : list event) :
  Opcode r = OpcodeQuery ->
  answerQuery NewRR s h now (SetReply r) = Ret (h', m', Some e, tr) ->
  e = ErrDomainNotFound \/ e = ErrUnsupportedQueryType ->
  handle NewRR Exchange s h now r =
    Ret (h',
         set_answer (SetReply r)
           (snd (upstream_answer Exchange (recurse_msg (SetReply r)) (recursors s))),
         tr ++ map (fun sv => EvExchange sv (recurse_msg (SetReply r)))
                   (fst (upstream_answer Exchange (recurse_msg (SetReply r))
                                         (recursors s)))).
Proof.
  intros Hop Hq He.
  pose proof (answerQuery_fallback_msg NewRR s h h' now _ _ e tr Hq He) as ->.
  unfold handle. rewrite Hop, Hq. cbn [Z.eqb OpcodeQuery].
  rewrite (recurse_loop_upstream_answer Exchange (recursors s) (SetReply r))
    by reflexivity.
  destruct He as [-> | ->]; reflexivity.
Qed.

Lemma handle_recursion_fallback_witness :
  handle test_newrr test_exchange two_recursors ∅ 0 (a_query "nomatch.com.") =
    Ret (∅,
         set_answer (SetReply (a_query "nomatch.com."))
           (snd (upstream_answer test_exchange
                   (recurse_msg (SetReply (a_query "nomatch.com."))) (recursors two_recursors))),
         [EvFindDomain "nomatch.com"] ++
         map (fun sv => EvExchange sv (recurse_msg (SetReply (a_query "nomatch.com."))))
             (fst (upstream_answer test_exchange
                     (recurse_msg (SetReply (a_query "nomatch.com."))) (recursors two_recursors)))).
Proof.
  apply (handle_recursion_fallback test_newrr test_exchange two_recursors ∅ ∅ 0
           (a_query "nomatch.com.") (SetReply (a_query "nomatch.com."))
           ErrDomainNotFound [EvFindDomain "nomatch.com"]).
  - reflexivity.
  - vm_compute. reflexivity.
  - left. reflexivity.
Defined.

(** The spec's scenario: first upstream failing, second answering; the
    reply's answer section is the second upstream's. *)
Example handle_second_upstream :
  match handle test_newrr test_exchange two_recursors ∅ 0 (a_query "nomatch.com.") with
  | Ret (_, reply, _) => Answer reply = [upstream_rr]
  | Panic => False
  end.
Proof. vm_compute. reflexivity. Qed.

(** C5: a query whose question section is empty makes [answerQuery]
    return [ErrNoQuestions] with no Domain Table lookup, and [handle]
    replies with the empty reply, without any upstream exchange. *)
Theorem handle_no_questions
    (NewRR : string -> option RR) (Exchange : Msg -> string -> option Msg)
    (s : Sdns) (h : heap) (now : Z) (r : Msg) :
  Msg_Question r = [] ->
  answerQuery NewRR s h now (SetReply r) = Ret (h, SetReply r, Some ErrNoQuestions, []) /\
  handle NewRR Exchange s h now r = Ret (h, SetReply r, []) /\
  Answer (SetReply r) = [].
Proof.
  intros Hq.
  assert (Hm : Msg_Question (SetReply r) = []) by (cbn; rewrite Hq; reflexivity).
  assert (Ha : answerQuery NewRR s h now (SetReply r) =
               Ret (h, SetReply r, Some ErrNoQuestions, []))
    by (unfold answerQuery; rewrite Hm; reflexivity).
  split; [exact Ha | split; [|reflexivity]].
  unfold handle. destruct (Opcode r =? OpcodeQuery); [|reflexivity].
  rewrite Ha. reflexivity.
Qed.

Lemma handle_no_questions_witness :
  answerQuery test_newrr test_table ∅ 0 (SetReply (mkMsg 7 OpcodeQuery true [] [])) =
    Ret (∅, SetReply (mkMsg 7 OpcodeQuery true [] []), Some ErrNoQuestions, []) /\
  handle test_newrr test_exchange test_table ∅ 0 (mkMsg 7 OpcodeQuery true [] []) =
    Ret (∅, SetReply (mkMsg 7 OpcodeQuery true [] []), []) /\
  Answer (SetReply (mkMsg 7 OpcodeQuery true [] [])) = [].
Proof. apply handle_no_questions. reflexivity. Defined.

Example csv_repo_tests :
  map (fun s => snd (CsvStringToMap s)) [""; "a"; "foo=bar,aaa"]%string
    = [Some (ErrMalformedString ""); Some (ErrMalformedString "a");
       Some (ErrMalformedString "aaa")] /\
  CsvStringToMap "foo=bar=lol,foo=caz,juj=bib;x" =
    ({[ "foo"%string := ["bar=lol"%string; "caz"%string]; "juj"%string := ["bib;x"%string] ]},
     None).
Proof. split; vm_compute; reflexivity. Qed.

(** ** CsvStringToMap *)

Lemma no_byte_cons (x : Ascii.ascii) (s : string) (c : Ascii.ascii) :
  no_byte (String x s) c <-> x <> c /\ no_byte s c.
Proof.
  split.
  - intros H. split; [intros ->; apply (H 0%nat); reflexivity|].
    intros i. apply (H (S i)).
  - intros [Hx Hs] [|i]; simpl; [congruence | apply Hs].
Qed.

Lemma IndexByte_range (s : string) (c : Ascii.ascii) : -1 <= IndexByte s c.
Proof.
  induction s as [|x s IH]; simpl; [lia|].
  destruct (ascii_eqb x c); [lia|]. destruct (Z.ltb_spec (IndexByte s c) 0); lia.
Qed.

Lemma IndexByte_neg_iff (s : string) (c : Ascii.ascii) :
  IndexByte s c < 0 <-> no_byte s c.
Proof.
  induction s as [|x s IH].
  - split; [intros _ i; destruct i; discriminate | intros _; simpl; lia].
  - rewrite no_byte_cons. simpl. unfold ascii_eqb at 1.
    destruct (decide (x = c)) as [->|Hx].
    + split; [lia | intros [? _]; contradiction].
    + destruct (Z.ltb_spec (IndexByte s c) 0) as [Hlt|Hge].
      * split; [intros _; split; [exact Hx | apply IH, Hlt] | lia].
      * split; [pose proof (IndexByte_range s c); lia|].
        intros [_ Hs]. apply IH in Hs. lia.
Qed.

Lemma IndexByte_app_sep (pre post : string) (c : Ascii.ascii) :
  no_byte pre c ->
  IndexByte (String.append pre (String c post)) c = Z.of_nat (String.length pre).
Proof.
  induction pre as [|x pre IH]; intros Hpre; simpl.
  - unfold ascii_eqb. destruct (decide (c = c)); [reflexivity | contradiction].
  - apply no_byte_cons in Hpre as [Hx Hpre].
    unfold ascii_eqb at 1. destruct (decide (x = c)); [contradiction|].
    rewrite IH by exact Hpre.
    destruct (Z.ltb_spec (Z.of_nat (String.length pre)) 0); lia.
Qed.

Lemma str_take_app (pre post : string) :
  str_take (String.length pre) (String.append pre post) = pre.
Proof. induction pre as [|c pre IH]; simpl; [reflexivity | rewrite IH; reflexivity]. Qed.

Lemma SplitN2_sep (k v : string) (c : Ascii.ascii) :
  no_byte k c -> SplitN2 (String.append k (String c v)) c = [k; v].
Proof.
  intros Hk. unfold SplitN2. rewrite IndexByte_app_sep by exact Hk.
  destruct (Z.ltb_spec (Z.of_nat (String.length k)) 0); [lia|].
  rewrite Nat2Z.id, str_take_app.
  replace (S (String.length k)) with (String.length (String.append k (String c EmptyString))).
  - rewrite <- (str_drop_app (String.append k (String c EmptyString)) v).
    f_equal. clear. induction k as [|x k IH]; simpl; [reflexivity | rewrite IH; reflexivity].
  - clear. induction k as [|x k IH]; simpl; [reflexivity | rewrite IH; reflexivity].
Qed.

Lemma SplitN2_no_sep (s : string) (c : Ascii.ascii) :
  no_byte s c -> SplitN2 s c = [s].
Proof.
  intros Hs. unfold SplitN2. apply IndexByte_neg_iff in Hs.
  destruct (Z.ltb_spec (IndexByte s c) 0); [reflexivity | lia].
Qed.

Lemma SplitN2_has_sep (s : string) (c : Ascii.ascii) :
  ~ no_byte s c -> exists k v, SplitN2 s c = [k; v].
Proof.
  intros Hs. unfold SplitN2.
  destruct (Z.ltb_spec (IndexByte s c) 0) as [Hlt|_].
  - apply IndexByte_neg_iff in Hlt. contradiction.
  - eexists _, _. reflexivity.
Qed.

Lemma Split_app_sep (a b : string) (c : Ascii.ascii) :
  no_byte a c -> Split (String.append a (String c b)) c = a :: Split b c.
Proof.
  induction a as [|x a IH]; intros Ha; simpl.
  - unfold ascii_eqb. destruct (decide (c = c)); [reflexivity | contradiction].
  - apply no_byte_cons in Ha as [Hx Ha]. rewrite IH by exact Ha.
    unfold ascii_eqb. destruct (decide (x = c)); [contradiction | reflexivity].
Qed.

Lemma Split_no_sep (a : string) (c : Ascii.ascii) : no_byte a c -> Split a c = [a].
Proof.
  induction a as [|x a IH]; intros Ha; simpl; [reflexivity|].
  apply no_byte_cons in Ha as [Hx Ha]. rewrite IH by exact Ha.
  unfold ascii_eqb. destruct (decide (x = c)); [contradiction | reflexivity].
Qed.

Lemma no_byte_app (a b : string) (c : Ascii.ascii) :
  no_byte (String.append a b) c <-> no_byte a c /\ no_byte b c.
Proof.
  induction a as [|x a IH].
  - change (String.append EmptyString b) with b.
    split; [intros H; split; [intros i; destruct i; discriminate | exact H] | tauto].
  - change (String.append (String x a) b) with (String x (String.append a b)).
    rewrite !no_byte_cons, IH. tauto.
Qed.

Lemma csv_loop_err (values : list string) (res : gmap string (list string)) (v : string) :
  snd (csv_loop values res) = Some (ErrMalformedString v) <->
  exists pre post, values = pre ++ v :: post /\ no_byte v "="%char /\
                   Forall (fun x => ~ no_byte x "="%char) pre.
Proof.
  revert res. induction values as [|value rest IH]; intros res.
  - simpl. split; [discriminate|]. intros (pre & post & E & _). destruct pre; discriminate.
  - destruct (Z.ltb_spec (IndexByte value "=") 0) as [Hlt|Hge].
    + apply IndexByte_neg_iff in Hlt as Hno.
      simpl. rewrite SplitN2_no_sep by exact Hno. simpl.
      split.
      * intros E. injection E as <-. exists [], rest. split; [reflexivity|]. auto.
      * intros (pre & post & E & Hv & Hpre). destruct pre as [|x pre].
        -- injection E as -> _. reflexivity.
        -- injection E as -> _. inversion Hpre. contradiction.
    + assert (Hsep : ~ no_byte value "="%char).
      { intros Hno. apply IndexByte_neg_iff in Hno. lia. }
      destruct (SplitN2_has_sep value "=" Hsep) as (k & v' & Hs).
      simpl. rewrite Hs.
      assert (Hrest : forall r, snd (csv_loop rest r) = Some (ErrMalformedString v) <->
        exists pre post, value :: rest = pre ++ v :: post /\ no_byte v "="%char /\
                         Forall (fun x => ~ no_byte x "="%char) pre).
      { intros r. rewrite IH. split.
        - intros (pre & post & E & Hv & Hpre). exists (value :: pre), post.
          rewrite E. auto.
        - intros (pre & post & E & Hv & Hpre). destruct pre as [|x pre].
          + injection E as -> _. contradiction.
          + injection E as -> E. inversion Hpre. eauto. }
      destruct (res !! k); apply Hrest.
Qed.

(** The [Split] of an encoded list is the list of its segments. *)
Lemma Split_csv_encode (kvs : list (string * string)) :
  kvs <> [] ->
  Forall (fun kv => no_byte (csv_segment kv) ","%char) kvs ->
  Split (csv_encode kvs) ","%char = map csv_segment kvs.
Proof.
  induction kvs as [|kv rest IH]; intros Hne Hall; [contradiction|].
  inversion Hall as [|? ? Hkv Hrest]; subst.
  destruct rest as [|kv' rest'].
  - simpl. apply Split_no_sep, Hkv.
  - change (csv_encode (kv :: kv' :: rest'))
      with (String.append (csv_segment kv) (String "," (csv_encode (kv' :: rest')))).
    rewrite Split_app_sep by exact Hkv. simpl map. f_equal.
    apply IH; [discriminate | exact Hrest].
Qed.

Lemma csv_loop_segments (kvs : list (string * string)) (res : gmap string (list string)) :
  Forall (fun kv => no_byte (fst kv) "="%char) kvs ->
  exists r, csv_loop (map csv_segment kvs) res = (r, None) /\
    forall key, r !! key =
      match res !! key with
      | None => match values_of key kvs with [] => None | l => Some l end
      | Some s => Some (s ++ values_of key kvs)
      end.
Proof.
  revert res. induction kvs as [|[k v] rest IH]; intros res Hall.
  - exists res. split; [reflexivity|]. intros key. unfold values_of. simpl.
    destruct (res !! key); [rewrite app_nil_r|]; reflexivity.
  - inversion Hall as [|? ? Hk Hrest]; subst. simpl in Hk.
    simpl map. cbn [csv_loop]. unfold csv_segment at 1. simpl fst. simpl snd.
    rewrite SplitN2_sep by exact Hk.
    assert (Hv : forall key, values_of key ((k, v) :: rest) =
                   if String.eqb k key then v :: values_of key rest else values_of key rest).
    { intros key. unfold values_of. simpl. destruct (String.eqb k key); reflexivity. }
    destruct (res !! k) as [slice|] eqn:Ek.
    + destruct (IH (<[k := slice ++ [v]]> res) Hrest) as (r & Hr & Hlk).
      exists r. split; [exact Hr|]. intros key. rewrite Hlk, Hv.
      destruct (String.eqb_spec k key) as [<-|Hne].
      * rewrite lookup_insert_eq, Ek, <- app_assoc. reflexivity.
      * rewrite lookup_insert_ne by exact Hne. reflexivity.
    + destruct (IH (<[k := [v]]> res) Hrest) as (r & Hr & Hlk).
      exists r. split; [exact Hr|]. intros key. rewrite Hlk, Hv.
      destruct (String.eqb_spec k key) as [<-|Hne].
      * rewrite lookup_insert_eq, Ek. reflexivity.
      * rewrite lookup_insert_ne by exact Hne. reflexivity.
Qed.

(** Decides [no_byte] on a concrete string. *)
Ltac no_byte_tac := apply IndexByte_neg_iff; vm_compute; reflexivity.

(** [CsvStringToMap] fails exactly when a comma-separated segment has no
    ['=']; the error reports the first such segment. *)
Theorem csv_error_first_segment (str v : string) :
  snd (CsvStringToMap str) = Some (ErrMalformedString v) <->
  exists pre post, Split str ","%char = pre ++ v :: post /\ no_byte v "="%char /\
                   Forall (fun x => ~ no_byte x "="%char) pre.
Proof. unfold CsvStringToMap. apply csv_loop_err. Qed.

Lemma csv_error_first_segment_witness :
  snd (CsvStringToMap "foo=bar,aaa,b") = Some (ErrMalformedString "aaa").
Proof.
  apply csv_error_first_segment.
  exists ["foo=bar"%string], ["b"%string]. split; [reflexivity|]. split.
  - no_byte_tac.
  - constructor; [|constructor]. intros H. apply (H 3%nat). reflexivity.
Defined.

(** Round trip: encoding ["k=v"] pairs (keys without [','] or ['='],
    values without [',']) and parsing them back gives no error and, for
    every key, the values given for it in order; a value may contain
    ['=']. *)
Theorem csv_roundtrip (kvs : list (string * string)) :
  kvs <> [] ->
  Forall (fun kv => no_byte (fst kv) ","%char /\ no_byte (fst kv) "="%char /\
                    no_byte (snd kv) ","%char) kvs ->
  snd (CsvStringToMap (csv_encode kvs)) = None /\
  forall key, fst (CsvStringToMap (csv_encode kvs)) !! key =
    match values_of key kvs with [] => None | l => Some l end.
Proof.
  intros Hne Hall. unfold CsvStringToMap.
  assert (Hseg : Forall (fun kv => no_byte (csv_segment kv) ","%char) kvs).
  { eapply Forall_impl; [exact Hall|]. intros [k v] (Hk1 & _ & Hv).
    unfold csv_segment. simpl in *. apply no_byte_app. split; [exact Hk1|].
    apply no_byte_cons. split; [discriminate | exact Hv]. }
  rewrite Split_csv_encode by assumption.
  destruct (csv_loop_segments kvs ∅) as (r & Hr & Hlk).
  { eapply Forall_impl; [exact Hall|]. intros kv (_ & H & _). exact H. }
  rewrite Hr. split; [reflexivity|]. intros key. rewrite Hlk, lookup_empty. reflexivity.
Qed.

Lemma csv_roundtrip_witness :
  snd (CsvStringToMap "domain=a.com,ip=1.1.1.1,ip=x=y") = None /\
  forall key, fst (CsvStringToMap "domain=a.com,ip=1.1.1.1,ip=x=y") !! key =
    match values_of key [("domain", "a.com"); ("ip", "1.1.1.1"); ("ip", "x=y")]%string
    with [] => None | l => Some l end.
Proof.
  apply (csv_roundtrip [("domain", "a.com"); ("ip", "1.1.1.1"); ("ip", "x=y")]%string).
  - discriminate.
  - repeat constructor; no_byte_tac.
Defined.

(** [main] turns the argument ["domain=n,ip=a1,...,ns=s1,..."] into the
    record named by the first [domain] value, with every [ip] value as its
    addresses and every [ns] value as its nameservers, in order; without a
    [domain] key it exits. *)
Theorem parse_domain_fields (kvs : list (string * string)) :
  kvs <> [] ->
  Forall (fun kv => no_byte (fst kv) ","%char /\ no_byte (fst kv) "="%char /\
                    no_byte (snd kv) ","%char) kvs ->
  parse_domain (csv_encode kvs) =
    match values_of "domain" kvs with
    | [] => Ret (inr ExitNoDomainName)
    | n0 :: _ => Ret (inl (mkDomain n0 (values_of "ip" kvs) (values_of "ns" kvs) 0 false))
    end.
Proof.
  intros Hne Hall. destruct (csv_roundtrip kvs Hne Hall) as [He Hlk].
  unfold parse_domain. destruct (CsvStringToMap (csv_encode kvs)) as [r e].
  simpl in He, Hlk. subst e. rewrite !Hlk.
  destruct (values_of "domain" kvs); [reflexivity|].
  destruct (values_of "ip" kvs), (values_of "ns" kvs); reflexivity.
Qed.

Lemma parse_domain_fields_witness :
  parse_domain "domain=*.a.com,ip=1.1.1.1,ns=ns1,ip=2.2.2.2" =
    Ret (inl (mkDomain "*.a.com" ["1.1.1.1"%string; "2.2.2.2"%string] ["ns1"%string] 0 false)).
Proof.
  apply (parse_domain_fields
           [("domain", "*.a.com"); ("ip", "1.1.1.1"); ("ns", "ns1"); ("ip", "2.2.2.2")]%string).
  - discriminate.
  - repeat constructor; no_byte_tac.
Defined.

(** ** More of GetAddress *)

Lemma GetAddress_seeded (now : Z) (d : Domain) :
  GetAddress now d = GetAddress now (once_Do now d).
Proof. unfold GetAddress at 1 2. rewrite once_Do_idem. reflexivity. Qed.

(** [GetAddress] panics (modulo by zero) on a record without addresses;
    otherwise it returns one of the record's addresses, keeps the address
    list and marks the seed as done. *)
Theorem GetAddress_member (now : Z) (d : Domain) :
  (Addresses d = [] -> GetAddress now d = Panic) /\
  ((0 < length (Addresses d))%nat ->
   exists a d', GetAddress now d = Ret (a, d') /\ In a (Addresses d) /\
                Addresses d' = Addresses d /\ once_done d' = true).
Proof.
  split.
  - intros He. unfold GetAddress. cbn [Addresses set_nextIdx].
    rewrite once_Do_Addresses, He. reflexivity.
  - intros Hn. rewrite GetAddress_seeded, GetAddress_done;
      [|apply once_Do_done | rewrite once_Do_Addresses; exact Hn].
    eexists _, _. split; [reflexivity|].
    cbn [Addresses once_done set_nextIdx]. rewrite !once_Do_Addresses.
    split; [|split; [reflexivity | apply once_Do_done]].
    unfold pick. apply nth_In.
    pose proof (Z.mod_pos_bound ((nextIdx (once_Do now d) + 1) mod two64)
                  (Z.of_nat (length (Addresses d))) ltac:(lia)). lia.
Qed.

Lemma GetAddress_member_witness :
  GetAddress 0 (mkDomain "e.com" [] [] 0 false) = Panic /\
  exists a d', GetAddress 9 rr3 = Ret (a, d') /\ In a (Addresses rr3) /\
               Addresses d' = Addresses rr3 /\ once_done d' = true.
Proof.
  split.
  - apply (GetAddress_member 0 (mkDomain "e.com" [] [] 0 false)). reflexivity.
  - apply (GetAddress_member 9 rr3). simpl. lia.
Defined.

(** ** More of Load *)

Lemma load_loop_recursors_kept (h : heap) (l : list ptr) (s t : Sdns) (e : option LoadError) :
  load_loop h l s = Ret (t, e) -> recursors t = recursors s.
Proof.
  revert s. induction l as [|p rest IH]; intros s Hl; cbn [load_loop] in Hl.
  - injection Hl as <- _. reflexivity.
  - destruct (h !! p) as [d|]; [|discriminate].
    destruct (Name d) as [|c0 tl]; [discriminate|].
    destruct (ascii_eqb c0 "*").
    + destruct tl as [|c1 tl']; [discriminate|].
      destruct (ascii_eqb c1 ".").
      * apply IH in Hl. exact Hl.
      * injection Hl as <- _. reflexivity.
    + apply IH in Hl. exact Hl.
Qed.

Lemma load_loop_ok_wellformed (h : heap) (l : list ptr) (s t : Sdns) :
  load_loop h l s = Ret (t, None) -> Forall (wellformed_record h) l.
Proof.
  revert s. induction l as [|p rest IH]; intros s Hl; [constructor|].
  cbn [load_loop] in Hl. destruct (h !! p) as [d|] eqn:Hd; [|discriminate].
  destruct (Name d) as [|c0 tl] eqn:Hn; [discriminate|].
  unfold ascii_eqb in Hl. destruct (decide (c0 = "*"%char)) as [->|Hc0].
  - destruct tl as [|c1 tl']; [discriminate|].
    destruct (decide (c1 = "."%char)) as [->|]; [|discriminate].
    constructor; [|exact (IH _ Hl)].
    exists d. split; [exact Hd|]. right. exists tl'. exact Hn.
  - constructor; [|exact (IH _ Hl)].
    exists d. split; [exact Hd|]. left. exists c0, tl. auto.
Qed.

(** [Load] succeeds exactly on the configurations whose records are all
    well-formed (an exact name, or ["*."] followed by a suffix). *)
Theorem load_ok_iff_wellformed (h : heap) (s : Sdns) (cfg : SdnsConfig) :
  (exists t, Load h s cfg = Ret (t, None)) <-> Forall (wellformed_record h) (Domains cfg).
Proof.
  rewrite Load_loop. split.
  - intros [t Ht]. exact (load_loop_ok_wellformed _ _ _ _ Ht).
  - intros Hall.
    destruct (load_loop_wellformed_prefix h (Domains cfg) (mkSdns ∅ ∅ (recursors s)) Hall)
      as (t & Ht & _).
    exists t. exact Ht.
Qed.

Lemma load_ok_iff_wellformed_witness :
  exists t, Load test_heap sdns_zero test_cfg = Ret (t, None).
Proof.
  apply load_ok_iff_wellformed. repeat constructor.
  - eexists. split; [reflexivity|]. right. eexists. reflexivity.
  - eexists. split; [reflexivity|]. left. exists "s"%char, "omething.com"%string.
    split; [reflexivity | discriminate].
Defined.

(** A successful [Load] builds its table from the configuration alone:
    loading the same configuration into any receiver gives the same
    indexes, and reloading the result with it changes nothing. *)
Theorem load_ok_reload (h : heap) (s t : Sdns) (cfg : SdnsConfig) :
  Load h s cfg = Ret (t, None) ->
  (forall s' : Sdns,
     Load h s' cfg = Ret (mkSdns (exactDomains t) (wildcardDomains t) (recursors s'), None)) /\
  Load h t cfg = Ret (t, None).
Proof.
  intros Ht.
  assert (Hall : forall s' : Sdns,
     Load h s' cfg = Ret (mkSdns (exactDomains t) (wildcardDomains t) (recursors s'), None)).
  { intros s'. rewrite Load_loop in *.
    rewrite (load_loop_recursors h (Domains cfg) ∅ ∅ (recursors s) (recursors s')), Ht.
    reflexivity. }
  split; [exact Hall|].
  rewrite Hall. rewrite Load_loop in Ht. apply load_loop_recursors_kept in Ht as Hr.
  destruct t as [e w r]. simpl in *. rewrite Hr. reflexivity.
Qed.

Lemma load_ok_reload_witness :
  Load test_heap test_table test_cfg = Ret (test_table, None).
Proof.
  apply (load_ok_reload test_heap sdns_zero test_table test_cfg). vm_compute. reflexivity.
Defined.

(** Records not named [n] leave the exact entry [n] alone. *)
Lemma load_loop_other_exact (h : heap) (l : list ptr) (s t : Sdns) (n : string) :
  load_loop h l s = Ret (t, None) ->
  Forall (fun q => forall dq, h !! q = Some dq -> Name dq <> n) l ->
  exactDomains t !! n = exactDomains s !! n.
Proof.
  revert s. induction l as [|p rest IH]; intros s Hl Hn.
  - cbn in Hl. injection Hl as <-. reflexivity.
  - inversion Hn as [|? ? Hn1 Hn2]; subst.
    cbn [load_loop] in Hl. destruct (h !! p) as [d|] eqn:Hd; [|discriminate].
    specialize (Hn1 d eq_refl).
    destruct (Name d) as [|c0 tl] eqn:Hname; [discriminate|].
    unfold ascii_eqb in Hl. destruct (decide (c0 = "*"%char)) as [->|Hc0].
    + destruct tl as [|c1 tl']; [discriminate|].
      destruct (decide (c1 = "."%char)) as [->|]; [|discriminate].
      rewrite (IH _ Hl Hn2). reflexivity.
    + rewrite (IH _ Hl Hn2). cbn. rewrite lookup_insert_ne; [reflexivity | congruence].
Qed.

(** Records not named ["*" ++ k] leave the wildcard entry [k] alone. *)
Lemma load_loop_other_wildcard (h : heap) (l : list ptr) (s t : Sdns) (k : string) :
  load_loop h l s = Ret (t, None) ->
  Forall (fun q => forall dq, h !! q = Some dq -> Name dq <> String "*" k) l ->
  wildcardDomains t !! k = wildcardDomains s !! k.
Proof.
  revert s. induction l as [|p rest IH]; intros s Hl Hk.
  - cbn in Hl. injection Hl as <-. reflexivity.
  - inversion Hk as [|? ? Hk1 Hk2]; subst.
    cbn [load_loop] in Hl. destruct (h !! p) as [d|] eqn:Hd; [|discriminate].
    specialize (Hk1 d eq_refl).
    destruct (Name d) as [|c0 tl] eqn:Hname; [discriminate|].
    unfold ascii_eqb in Hl. destruct (decide (c0 = "*"%char)) as [->|Hc0].
    + destruct tl as [|c1 tl']; [discriminate|].
      destruct (decide (c1 = "."%char)) as [->|]; [|discriminate].
      rewrite (IH _ Hl Hk2). cbn. rewrite lookup_insert_ne; [reflexivity | congruence].
    + rewrite (IH _ Hl Hk2). reflexivity.
Qed.

(** The step of the loop at the record [p] after a well-formed prefix. *)
Lemma Load_at (h : heap) (s t : Sdns) (cfg : SdnsConfig) (pre post : list ptr) (p : ptr) :
  Load h s cfg = Ret (t, None) ->
  Domains cfg = pre ++ p :: post ->
  exists t1, load_loop h (p :: post) t1 = Ret (t, None).
Proof.
  intros Ht Hcfg.
  assert (Hwf : Forall (wellformed_record h) (Domains cfg))
    by (apply (load_ok_iff_wellformed h s); eauto).
  rewrite Hcfg in Hwf. apply Forall_app in Hwf as [Hpre _].
  destruct (load_loop_wellformed_prefix h pre (mkSdns ∅ ∅ (recursors s)) Hpre)
    as (t1 & _ & Hrest).
  exists t1. rewrite <- Hrest, <- Hcfg, <- Load_loop. exact Ht.
Qed.

(** After a successful [Load], a non-wildcard record is found under its
    name when it is the last record of the configuration with that name:
    later duplicates win. *)
Theorem load_last_exact_found (h : heap) (s t : Sdns) (cfg : SdnsConfig)
    (pre post : list ptr) (p : ptr) (d : Domain) :
  Load h s cfg = Ret (t, None) ->
  Domains cfg = pre ++ p :: post ->
  h !! p = Some d ->
  (forall r, Name d <> String "*" r) ->
  Forall (fun q => forall dq, h !! q = Some dq -> Name dq <> Name d) post ->
  FindDomainFromName t (Name d) = (Some p, true).
Proof.
  intros Ht Hcfg Hd Hstar Hpost.
  destruct (Load_at h s t cfg pre post p Ht Hcfg) as (t1 & Hl).
  cbn [load_loop] in Hl. rewrite Hd in Hl.
  destruct (Name d) as [|c0 tl] eqn:Hname; [discriminate|].
  unfold ascii_eqb in Hl. destruct (decide (c0 = "*"%char)) as [->|Hc0].
  { exfalso. exact (Hstar tl eq_refl). }
  pose proof (load_loop_other_exact h post _ t (String c0 tl) Hl Hpost) as E.
  unfold FindDomainFromName. cbn [String.eqb]. rewrite E. cbn. rewrite lookup_insert_eq.
  reflexivity.
Qed.

Lemma load_last_exact_found_witness :
  FindDomainFromName test_table "something.com" = (Some 2%positive, true).
Proof.
  change "something.com"%string with (Name (dom "something.com")).
  apply (load_last_exact_found test_heap sdns_zero test_table test_cfg [1%positive] []).
  - vm_compute. reflexivity.
  - reflexivity.
  - reflexivity.
  - intros r E. discriminate E.
  - constructor.
Defined.

(** After a successful [Load], the last wildcard record ["*." ++ suffix]
    of the configuration answers every name [label ++ "." ++ suffix]
    whose [label] has no separator and which has no exact record. *)
Theorem load_last_wildcard_found (h : heap) (s t : Sdns) (cfg : SdnsConfig)
    (pre post : list ptr) (p : ptr) (d : Domain) (suffix label : string) :
  Load h s cfg = Ret (t, None) ->
  Domains cfg = pre ++ p :: post ->
  h !! p = Some d ->
  Name d = String "*" (String "." suffix) ->
  Forall (fun q => forall dq, h !! q = Some dq -> Name dq <> Name d) post ->
  no_byte label "."%char ->
  exactDomains t !! String.append label (String "." suffix) = None ->
  FindDomainFromName t (String.append label (String "." suffix)) = (Some p, true).
Proof.
  intros Ht Hcfg Hd Hname Hpost Hlabel Hex.
  destruct (Load_at h s t cfg pre post p Ht Hcfg) as (t1 & Hl).
  cbn [load_loop] in Hl. rewrite Hd, Hname in Hl. cbn -[load_loop] in Hl.
  rewrite Hname in Hpost.
  pose proof (load_loop_other_wildcard h post _ t (String "." suffix) Hl Hpost) as E.
  unfold FindDomainFromName.
  destruct (String.eqb_spec (String.append label (String "." suffix)) "") as [He|_].
  { destruct label; discriminate He. }
  rewrite Hex, IndexByte_app_sep by exact Hlabel.
  destruct (Z.ltb_spec (Z.of_nat (String.length label)) 0); [lia|].
  rewrite Nat2Z.id, str_drop_app, E. cbn. rewrite lookup_insert_eq. reflexivity.
Qed.

Lemma load_last_wildcard_found_witness :
  FindDomainFromName test_table "lol.something.com" = (Some 1%positive, true).
Proof.
  change "lol.something.com"%string
    with (String.append "lol" (String "." "something.com")).
  apply (load_last_wildcard_found test_heap sdns_zero test_table test_cfg []
           [2%positive] 1%positive (dom "*.something.com")).
  - vm_compute. reflexivity.
  - reflexivity.
  - reflexivity.
  - reflexivity.
  - constructor; [|constructor]. intros dq Hdq. vm_compute in Hdq.
    injection Hdq as <-. discriminate.
  - no_byte_tac.
  - vm_compute. reflexivity.
Defined.

Lemma str_append_length (a b : string) :
  String.length (String.append a b) = (String.length a + String.length b)%nat.
Proof. induction a as [|c a IH]; simpl; [reflexivity | rewrite IH; reflexivity]. Qed.

(** A name without separator that has no exact record is never found:
    wildcards only apply to names with a parent domain. *)
Theorem find_single_label (s : Sdns) (name : string) :
  no_byte name "."%char ->
  exactDomains s !! name = None ->
  FindDomainFromName s name = (None, false).
Proof.
  intros Hno Hex. unfold FindDomainFromName.
  destruct (String.eqb name ""); [reflexivity|]. rewrite Hex.
  apply IndexByte_neg_iff in Hno. destruct (Z.ltb_spec (IndexByte name ".") 0); [reflexivity | lia].
Qed.

Lemma find_single_label_witness :
  FindDomainFromName test_table "localhost" = (None, false).
Proof. apply find_single_label; [no_byte_tac | vm_compute; reflexivity]. Defined.

(** [TrimRight(name, ".")] turns a fully qualified query name back into
    the configured name: any number of trailing dots is removed, and
    nothing else. *)
Theorem TrimRightDot_fqdn (n : string) (k : nat) :
  (forall pre, n <> String.append pre ".") ->
  TrimRightDot (String.append n (dots k)) = n.
Proof.
  assert (Hdots : forall k, TrimRightDot (dots k) = EmptyString).
  { induction k0 as [|k0 IH]; [reflexivity|]. simpl. rewrite IH. reflexivity. }
  induction n as [|c n IH]; intros Hn.
  - apply Hdots.
  - change (String.append (String c n) (dots k)) with (String c (String.append n (dots k))).
    cbn [TrimRightDot].
    destruct n as [|c' n'].
    + change (String.append EmptyString (dots k)) with (dots k). rewrite Hdots.
      unfold ascii_eqb. destruct (decide (c = "."%char)) as [->|]; [|reflexivity].
      exfalso. apply (Hn EmptyString). reflexivity.
    + rewrite IH; [reflexivity|]. intros pre E. apply (Hn (String c pre)).
      rewrite E. reflexivity.
Qed.

Lemma TrimRightDot_fqdn_witness :
  TrimRightDot "something.com.." = "something.com"%string.
Proof.
  apply (TrimRightDot_fqdn "something.com" 2).
  intros pre E. pose proof (f_equal String.length E) as El.
  rewrite str_append_length in El. simpl in El.
  assert (Hl : String.length pre = 12%nat) by lia. clear El.
  do 13 (destruct pre as [|? pre]; simpl in Hl; try discriminate).
Defined.

(** ** Local answers of [handle] *)

Lemma set_answer_answer (m : Msg) (a : list RR) : Answer (set_answer m a) = a.
Proof. reflexivity. Qed.

Lemma set_answer_set_answer (m : Msg) (a b : list RR) :
  set_answer (set_answer m a) b = set_answer m b.
Proof. reflexivity. Qed.

Lemma SetReply_question (r : Msg) (q : Question) (qs : list Question) :
  Msg_Question r = q :: qs -> Msg_Question (SetReply r) = [q].
Proof. intros Hq. unfold SetReply. cbn [Msg_Question]. rewrite Hq. reflexivity. Qed.

(** [ns_loop] over nameservers that all give a record appends those
    records in order. *)
Lemma ns_loop_prefix (NewRR : string -> option RR) (name : string)
    (pre rest : list string) (rrs : list RR) (m : Msg) :
  Forall2 (fun ns rr => NewRR (String.append name (String.append " NS " ns)) = Some rr) pre rrs ->
  ns_loop NewRR name (pre ++ rest) m = ns_loop NewRR name rest (set_answer m (Answer m ++ rrs)).
Proof.
  intros H. revert m. induction H as [|ns rr pre' rrs' Hrr _ IH]; intros m.
  - rewrite app_nil_r. destruct m; reflexivity.
  - cbn [app ns_loop]. rewrite Hrr, IH. cbn [Answer set_answer].
    rewrite <- app_assoc. reflexivity.
Qed.

Lemma handle_found (NewRR : string -> option RR) (Exchange : Msg -> string -> option Msg)
    (s : Sdns) (h : heap) (now : Z) (r : Msg) :
  Opcode r = OpcodeQuery ->
  handle NewRR Exchange s h now r =
    match answerQuery NewRR s h now (SetReply r) with
    | Panic => Panic
    | Ret (h', m', err, tr) =>
        match err with
        | Some ErrUnsupportedQueryType | Some ErrDomainNotFound =>
            let '(m'', tr') := recurse_loop Exchange (recursors s) m' in
            Ret (h', m'', tr ++ tr')
        | _ => Ret (h', m', tr)
        end
    end.
Proof. intros Hop. unfold handle. rewrite Hop. reflexivity. Qed.

(** An A query for a name the table resolves is answered locally: the
    record's seed is set once, its counter advances by one (modulo
    [2^64]), the reply carries the record for the address at the new
    counter, and no upstream is asked. When that record cannot be built
    the reply has an empty answer section, still with the counter
    advanced. *)
Theorem handle_local_A
    (NewRR : string -> option RR) (Exchange : Msg -> string -> option Msg)
    (s : Sdns) (h : heap) (now : Z) (r : Msg) (q : Question) (qs : list Question)
    (p : ptr) (d : Domain) :
  Opcode r = OpcodeQuery ->
  Msg_Question r = q :: qs ->
  Qtype q = TypeA ->
  FindDomainFromName s (TrimRightDot (qName q)) = (Some p, true) ->
  h !! p = Some d ->
  (0 < length (Addresses d))%nat ->
  handle NewRR Exchange s h now r =
    Ret (<[p := set_nextIdx (once_Do now d) ((nextIdx (once_Do now d) + 1) mod two64)]> h,
         match NewRR (String.append (qName q)
                        (String.append " A "
                           (pick (Addresses d) ((nextIdx (once_Do now d) + 1) mod two64)))) with
         | Some rr => set_answer (SetReply r) [rr]
         | None => SetReply r
         end,
         [EvFindDomain (TrimRightDot (qName q))]).
Proof.
  intros Hop Hq Hty Hfind Hp Hn.
  rewrite (handle_found NewRR Exchange s h now r Hop).
  unfold answerQuery, answerA. rewrite (SetReply_question r q qs Hq), Hty.
  cbn [TypeA Z.eqb]. rewrite Hfind, Hp.
  rewrite GetAddress_seeded, GetAddress_done;
    [| apply once_Do_done | rewrite once_Do_Addresses; exact Hn].
  rewrite once_Do_Addresses.
  destruct (NewRR _); reflexivity.
Qed.

Lemma handle_local_A_witness :
  handle test_newrr test_exchange test_table test_heap 0 (a_query "test.something.com.") =
    Ret (<[1%positive := set_nextIdx (once_Do 0 (dom "*.something.com"))
                          ((nextIdx (once_Do 0 (dom "*.something.com")) + 1) mod two64)]> test_heap,
         match test_newrr (String.append "test.something.com."
                    (String.append " A "
                       (pick (Addresses (dom "*.something.com"))
                          ((nextIdx (once_Do 0 (dom "*.something.com")) + 1) mod two64)))) with
         | Some rr => set_answer (SetReply (a_query "test.something.com.")) [rr]
         | None => SetReply (a_query "test.something.com.")
         end,
         [EvFindDomain (TrimRightDot "test.something.com.")]).
Proof.
  apply (handle_local_A test_newrr test_exchange test_table test_heap 0
           (a_query "test.something.com.") (mkQuestion "test.something.com." TypeA) []
           1%positive (dom "*.something.com")).
  - reflexivity.
  - reflexivity.
  - reflexivity.
  - vm_compute. reflexivity.
  - reflexivity.
  - simpl. lia.
Defined.

(** An A query for a name resolved to a record without addresses crashes
    the handler (modulo by zero in [GetAddress]). *)
Theorem handle_A_no_addresses
    (NewRR : string -> option RR) (Exchange : Msg -> string -> option Msg)
    (s : Sdns) (h : heap) (now : Z) (r : Msg) (q : Question) (qs : list Question)
    (p : ptr) (d : Domain) :
  Opcode r = OpcodeQuery ->
  Msg_Question r = q :: qs ->
  Qtype q = TypeA ->
  FindDomainFromName s (TrimRightDot (qName q)) = (Some p, true) ->
  h !! p = Some d ->
  Addresses d = [] ->
  handle NewRR Exchange s h now r = Panic.
Proof.
  intros Hop Hq Hty Hfind Hp He.
  rewrite (handle_found NewRR Exchange s h now r Hop).
  unfold answerQuery, answerA. rewrite (SetReply_question r q qs Hq), Hty.
  cbn [TypeA Z.eqb]. rewrite Hfind, Hp.
  unfold GetAddress. cbn [Addresses set_nextIdx]. rewrite once_Do_Addresses, He.
  reflexivity.
Qed.

Lemma handle_A_no_addresses_witness :
  handle test_newrr test_exchange test_table ns_heap 0 (a_query "test.something.com.") = Panic.
Proof.
  apply (handle_A_no_addresses test_newrr test_exchange test_table ns_heap 0
           (a_query "test.something.com.") (mkQuestion "test.something.com." TypeA) []
           1%positive (mkDomain "*.something.com" [] ["ns1.x"%string; "us1.sdns.io"%string] 0 false)).
  - reflexivity.
  - reflexivity.
  - reflexivity.
  - vm_compute. reflexivity.
  - reflexivity.
  - reflexivity.
Defined.

(** An NS query for a name the table resolves is answered locally with
    one record per nameserver, in configuration order; the heap is not
    changed and no upstream is asked. *)
Theorem handle_local_NS
    (NewRR : string -> option RR) (Exchange : Msg -> string -> option Msg)
    (s : Sdns) (h : heap) (now : Z) (r : Msg) (q : Question) (qs : list Question)
    (p : ptr) (d : Domain) (rrs : list RR) :
  Opcode r = OpcodeQuery ->
  Msg_Question r = q :: qs ->
  Qtype q = TypeNS ->
  FindDomainFromName s (TrimRightDot (qName q)) = (Some p, true) ->
  h !! p = Some d ->
  Forall2 (fun ns rr => NewRR (String.append (qName q) (String.append " NS " ns)) = Some rr)
          (Nameservers d) rrs ->
  handle NewRR Exchange s h now r =
    Ret (h, set_answer (SetReply r) rrs, [EvFindDomain (TrimRightDot (qName q))]).
Proof.
  intros Hop Hq Hty Hfind Hp Hall.
  rewrite (handle_found NewRR Exchange s h now r Hop).
  unfold answerQuery, answerNS. rewrite (SetReply_question r q qs Hq), Hty.
  cbn [TypeA TypeNS Z.eqb]. rewrite Hfind, Hp.
  rewrite <- (app_nil_r (Nameservers d)), (ns_loop_prefix NewRR _ _ [] rrs _ Hall).
  reflexivity.
Qed.

Lemma handle_local_NS_witness :
  handle test_newrr test_exchange test_table ns_heap 0 (ns_query "test.something.com.") =
    Ret (ns_heap,
         set_answer (SetReply (ns_query "test.something.com."))
           [mkRR "test.something.com. NS ns1.x"; mkRR "test.something.com. NS us1.sdns.io"],
         [EvFindDomain (TrimRightDot "test.something.com.")]).
Proof.
  apply (handle_local_NS test_newrr test_exchange test_table ns_heap 0
           (ns_query "test.something.com.") (mkQuestion "test.something.com." TypeNS) []
           1%positive (mkDomain "*.something.com" [] ["ns1.x"%string; "us1.sdns.io"%string] 0 false)).
  - reflexivity.
  - reflexivity.
  - reflexivity.
  - vm_compute. reflexivity.
  - reflexivity.
  - repeat constructor.
Defined.

(** When building the record for one of the nameservers fails, [handle]
    replies with the records of the nameservers before it, does not
    recurse, and leaves the heap unchanged. *)
Theorem handle_NS_rr_failure
    (NewRR : string -> option RR) (Exchange : Msg -> string -> option Msg)
    (s : Sdns) (h : heap) (now : Z) (r : Msg) (q : Question) (qs : list Question)
    (p : ptr) (d : Domain) (pre : list string) (ns : string) (post : list string)
    (rrs : list RR) :
  Opcode r = OpcodeQuery ->
  Msg_Question r = q :: qs ->
  Qtype q = TypeNS ->
  FindDomainFromName s (TrimRightDot (qName q)) = (Some p, true) ->
  h !! p = Some d ->
  Nameservers d = pre ++ ns :: post ->
  Forall2 (fun ns rr => NewRR (String.append (qName q) (String.append " NS " ns)) = Some rr)
          pre rrs ->
  NewRR (String.append (qName q) (String.append " NS " ns)) = None ->
  handle NewRR Exchange s h now r =
    Ret (h, set_answer (SetReply r) rrs, [EvFindDomain (TrimRightDot (qName q))]).
Proof.
  intros Hop Hq Hty Hfind Hp Hns Hall Hfail.
  rewrite (handle_found NewRR Exchange s h now r Hop).
  unfold answerQuery, answerNS. rewrite (SetReply_question r q qs Hq), Hty.
  cbn [TypeA TypeNS Z.eqb]. rewrite Hfind, Hp, Hns.
  rewrite (ns_loop_prefix NewRR _ _ _ rrs _ Hall). cbn [ns_loop]. rewrite Hfail.
  reflexivity.
Qed.

Lemma handle_NS_rr_failure_witness :
  handle strict_newrr test_exchange test_table ns_heap 0 (ns_query "test.something.com.") =
    Ret (ns_heap,
         set_answer (SetReply (ns_query "test.something.com."))
           [mkRR "test.something.com. NS ns1.x"],
         [EvFindDomain (TrimRightDot "test.something.com.")]).
Proof.
  apply (handle_NS_rr_failure strict_newrr test_exchange test_table ns_heap 0
           (ns_query "test.something.com.") (mkQuestion "test.something.com." TypeNS) []
           1%positive (mkDomain "*.something.com" [] ["ns1.x"%string; "us1.sdns.io"%string] 0 false)
           ["ns1.x"%string] "us1.sdns.io" []).
  - reflexivity.
  - reflexivity.
  - reflexivity.
  - vm_compute. reflexivity.
  - reflexivity.
  - reflexivity.
  - repeat constructor.
  - reflexivity.
Defined.

Lemma once_Do_config (now : Z) (d : Domain) : config_of (once_Do now d) = config_of d.
Proof. unfold once_Do. destruct (once_done d); reflexivity. Qed.

Lemma GetAddress_config (now : Z) (d d' : Domain) (a : string) :
  GetAddress now d = Ret (a, d') -> config_of d' = config_of d.
Proof.
  unfold GetAddress. destruct (_ =? 0); [discriminate|].
  destruct (nth_error _ _); [|discriminate]. intros H. injection H as _ <-.
  exact (once_Do_config now d).
Qed.

Lemma answerQuery_config (NewRR : string -> option RR) (s : Sdns) (h h' : heap) (now : Z)
    (m m' : Msg) (e : option AnswerError) (tr : list event) :
  answerQuery NewRR s h now m = Ret (h', m', e, tr) ->
  forall p, option_map config_of (h' !! p) = option_map config_of (h !! p).
Proof.
  unfold answerQuery.
  destruct (Msg_Question m) as [|q qs] eqn:Hq.
  { intros H. injection H as <- _ _ _. reflexivity. }
  destruct (Qtype q =? TypeA).
  - unfold answerA. rewrite Hq. cbv zeta.
    destruct (FindDomainFromName s (TrimRightDot (qName q))) as [[p0|] [|]];
      try discriminate;
      try (intros H; injection H as <- _ _ _; reflexivity).
    match goal with |- context [match ?x !! p0 with _ => _ end] =>
      destruct (x !! p0) as [d|] eqn:Hp; [|discriminate] end.
    destruct (GetAddress now d) as [[a d']|] eqn:Hg; [|discriminate].
    intros H p.
    assert (Hh : h' = <[p0 := d']> h) by (destruct (NewRR _); injection H as <- _ _ _; reflexivity).
    subst h'. destruct (decide (p = p0)) as [E|Hne].
    + subst p. rewrite lookup_insert_eq.
      transitivity (option_map config_of (Some d)); [|f_equal; symmetry; exact Hp].
      cbn. f_equal. exact (GetAddress_config now d d' a Hg).
    + rewrite lookup_insert_ne by congruence. reflexivity.
  - destruct (Qtype q =? TypeNS); [|intros H; injection H as <- _ _ _; reflexivity].
    destruct (answerNS NewRR s h m) as [[[m0 e0] tr0]|]; [|discriminate].
    intros H. injection H as <- _ _ _. reflexivity.
Qed.

(** Serving never changes what was configured: after [handle], every
    pointer holds a record with the same name, addresses and nameservers
    as before (only the counter and the seed state can differ), and no
    record appears or disappears. *)
Theorem handle_config_preserved
    (NewRR : string -> option RR) (Exchange : Msg -> string -> option Msg)
    (s : Sdns) (h h' : heap) (now : Z) (r m : Msg) (tr : list event) :
  handle NewRR Exchange s h now r = Ret (h', m, tr) ->
  forall p, option_map config_of (h' !! p) = option_map config_of (h !! p).
Proof.
  unfold handle. destruct (Opcode r =? OpcodeQuery).
  - destruct (answerQuery NewRR s h now (SetReply r)) as [[[[h0 m0] e0] tr0]|] eqn:Ha;
      [|discriminate].
    pose proof (answerQuery_config NewRR s h h0 now _ _ _ _ Ha) as Hc.
    intros H. assert (Hh : h' = h0).
    { destruct e0 as [[]|];
        try (destruct (recurse_loop Exchange (recursors s) m0));
        injection H as <- _ _; reflexivity. }
    subst h'. exact Hc.
  - intros H. injection H as <- _ _. reflexivity.
Qed.

Lemma handle_config_preserved_witness :
  option_map config_of
    ((<[1%positive := set_nextIdx (once_Do 0 (dom "*.something.com"))
                        ((nextIdx (once_Do 0 (dom "*.something.com")) + 1) mod two64)]> test_heap)
       !! 1%positive) =
  option_map config_of (test_heap !! 1%positive).
Proof.
  apply (handle_config_preserved test_newrr test_exchange test_table test_heap _ 0
           (a_query "test.something.com.")
           (set_answer (SetReply (a_query "test.something.com."))
              [mkRR "test.something.com. A 192.168.0.103"])
           [EvFindDomain "test.something.com"]).
  vm_compute. reflexivity.
Defined.

(** ** NewSdns *)

(** [NewSdns] rejects a zero port before loading anything (even a
    configuration [Load] would crash on); with a non-zero port and
    well-formed records it succeeds with the indexes [Load] builds and the
    configured recursors. *)
Theorem NewSdns_outcome (h : heap) (cfg : SdnsConfig) :
  (Port cfg = 0 -> NewSdns h cfg = Ret (sdns_zero, Some ErrNoPort)) /\
  (Port cfg <> 0 -> Forall (wellformed_record h) (Domains cfg) ->
   exists t, Load h sdns_zero cfg = Ret (t, None) /\
             NewSdns h cfg = Ret (mkSdns (exactDomains t) (wildcardDomains t) (Recursors cfg), None)).
Proof.
  split.
  - intros H0. unfold NewSdns. rewrite H0. reflexivity.
  - intros H0 Hall.
    destruct (load_loop_wellformed_prefix h (Domains cfg) (mkSdns ∅ ∅ (recursors sdns_zero)) Hall)
      as (t & Ht & _).
    exists t. rewrite Load_loop. split; [exact Ht|].
    unfold NewSdns. destruct (Z.eqb_spec (Port cfg) 0) as [E|_]; [contradiction|].
    rewrite Load_loop, Ht. reflexivity.
Qed.

Lemma NewSdns_outcome_witness :
  NewSdns test_heap (mkSdnsConfig 0 ":" false [] [7%positive]) = Ret (sdns_zero, Some ErrNoPort) /\
  exists t, Load test_heap sdns_zero test_cfg = Ret (t, None) /\
            NewSdns test_heap test_cfg =
              Ret (mkSdns (exactDomains t) (wildcardDomains t) (Recursors test_cfg), None).
Proof.
  split.
  - apply (NewSdns_outcome test_heap (mkSdnsConfig 0 ":" false [] [7%positive])). reflexivity.
  - apply (NewSdns_outcome test_heap test_cfg).
    + discriminate.
    + repeat constructor.
      * eexists. split; [reflexivity|]. right. eexists. reflexivity.
      * eexists. split; [reflexivity|]. left. exists "s"%char, "omething.com"%string.
        split; [reflexivity | discriminate].
Defined.
